(** * Verification model of the stocktracker statistical forecast and
      technical-indicator engines.

    Sources: [src/src/lib/prediction.ts] (forecast engine) and
    [src/unnamed/part_001] (indicator engine).

    JavaScript numbers are modelled by [num]: exact rationals for finite
    values (IEEE rounding is abstracted away), plus [NaN] and the two
    infinities with their IEEE propagation rules; finite results are kept in
    lowest terms ([Qred]).  The sign of zero is not modelled.  Reading an array out of range yields [undefined], which every
    arithmetic operator of the code turns into [NaN]; [js_get] returns [NaN]
    directly for it. *)

From Stdlib Require Import QArith Qround Qabs Qminmax List Bool ZArith Lia Lqa Permutation.
From Stdlib Require String.
Import ListNotations.

(* ------------------------------------------------------------------ *)
(** ** JavaScript numbers *)

Inductive num : Type :=
| Fin (q : Q)
| NaN
| PInf
| NInf.

Definition Qltb (a b : Q) : bool := negb (Qle_bool b a).

Definition num_neg (x : num) : num :=
  match x with
  | Fin q => Fin (- q)
  | NaN => NaN
  | PInf => NInf
  | NInf => PInf
  end.

Definition num_add (x y : num) : num :=
  match x, y with
  | NaN, _ | _, NaN => NaN
  | Fin a, Fin b => Fin (Qred (a + b))
  | PInf, NInf | NInf, PInf => NaN
  | PInf, _ | _, PInf => PInf
  | NInf, _ | _, NInf => NInf
  end.

Definition num_sub (x y : num) : num := num_add x (num_neg y).

(** Infinity times a finite value: NaN for zero, otherwise signed. *)
Definition inf_scale (inf : num) (a : Q) : num :=
  if Qeq_bool a 0 then NaN else if Qltb 0 a then inf else num_neg inf.

Definition num_mul (x y : num) : num :=
  match x, y with
  | NaN, _ | _, NaN => NaN
  | Fin a, Fin b => Fin (Qred (a * b))
  | Fin a, inf | inf, Fin a => inf_scale inf a
  | PInf, PInf | NInf, NInf => PInf
  | _, _ => NInf
  end.

Definition num_div (x y : num) : num :=
  match x, y with
  | NaN, _ | _, NaN => NaN
  | Fin a, Fin b =>
      if Qeq_bool b 0 then
        (if Qeq_bool a 0 then NaN else if Qltb 0 a then PInf else NInf)
      else Fin (Qred (a / b))
  | Fin _, _ => Fin 0
  | inf, Fin b => if Qeq_bool b 0 || Qltb 0 b then inf else num_neg inf
  | _, _ => NaN
  end.

(** The relational operators [<] and [>]: false as soon as NaN is involved. *)
Definition num_lt (x y : num) : bool :=
  match x, y with
  | NaN, _ | _, NaN => false
  | Fin a, Fin b => Qltb a b
  | NInf, NInf | PInf, PInf => false
  | NInf, _ => true
  | _, PInf => true
  | _, _ => false
  end.

Definition num_gt (x y : num) : bool := num_lt y x.

Definition num_abs (x : num) : num :=
  match x with
  | Fin q => Fin (Qabs q)
  | NaN => NaN
  | _ => PInf
  end.

Definition is_nan (x : num) : bool :=
  match x with NaN => true | _ => false end.

(** [Math.min] and [Math.max] of two arguments: NaN if either is NaN. *)
Definition math_min (x y : num) : num :=
  if is_nan x || is_nan y then NaN else if num_lt y x then y else x.

Definition math_max (x y : num) : num :=
  if is_nan x || is_nan y then NaN else if num_gt y x then y else x.

(** [x || d] on a number: [d] when [x] is falsy (0 or NaN). *)
Definition num_or (x d : num) : num :=
  match x with
  | Fin q => if Qeq_bool q 0 then d else x
  | NaN => d
  | _ => x
  end.

Definition num_eqb (x y : num) : bool :=
  match x, y with
  | Fin a, Fin b => Qeq_bool a b
  | NaN, NaN | PInf, PInf | NInf, NInf => true
  | _, _ => false
  end.

Fixpoint num_list_eqb (l1 l2 : list num) : bool :=
  match l1, l2 with
  | [], [] => true
  | x :: l1, y :: l2 => num_eqb x y && num_list_eqb l1 l2
  | _, _ => false
  end.

Definition nat_num (n : nat) : num := Fin (inject_Z (Z.of_nat n)).

(* ------------------------------------------------------------------ *)
(** ** JavaScript arrays *)

(** [a[i]]; out of range reads [undefined], used by the code only in
    arithmetic, hence [NaN]. *)
Definition js_get (l : list num) (i : Z) : num :=
  if (i <? 0)%Z then NaN else nth (Z.to_nat i) l NaN.

(** Resolution of a [slice] bound: negative bounds count from the end. *)
Definition js_rel (len : nat) (k : Z) : nat :=
  if (k <? 0)%Z then Z.to_nat (Z.max 0 (Z.of_nat len + k))
  else Nat.min (Z.to_nat k) len.

(** [l.slice(s)] / [l.slice(s, e)]. *)
Definition js_slice {A} (l : list A) (s : Z) (e : option Z) : list A :=
  let len := length l in
  let from := js_rel len s in
  let to := match e with None => len | Some e => js_rel len e end in
  firstn (to - from) (skipn from l).

(* ------------------------------------------------------------------ *)
(** ** Forecast engine ([src/src/lib/prediction.ts]) *)

Module Forecast.

Record StockTimeSeriesData := {
  date : String.string;
  open : Q;
  high : Q;
  low : Q;
  close : Q;
  volume : Z
}.

Inductive Trend := Bullish | Bearish | Neutral.

Record PredictionResult := {
  dates : list String.string;
  actual : list num;
  (** [null] padding is [None] *)
  predicted : list (option num);
  nextDayPrediction : num;
  nextWeekPrediction : num;
  confidence : num;
  trend : Trend;
  supportLevel : num;
  resistanceLevel : num
}.

(** The [Error] thrown on short input. *)
Inductive PredictError := InsufficientData.

(** [windowSlice.reduce((acc, val) => acc + val, 0)] *)
Definition js_sum (l : list num) : num := fold_left num_add l (Fin 0).

(** The values [from, from + 1, ..., to - 1] of a counting loop;
    empty when [to <= from]. *)
Definition zrange (from to : Z) : list Z :=
  map (fun k => (from + Z.of_nat k)%Z) (seq 0 (Z.to_nat (to - from))).

(** [calculateSMA(data, window)]: one mean per [window - 1 <= i <
    data.length], with no padding. *)
Definition calculateSMA (data : list num) (window : nat) : list num :=
  map (fun i =>
         let windowSlice := js_slice data (i - Z.of_nat window + 1)%Z (Some (i + 1)%Z) in
         num_div (js_sum windowSlice) (nat_num window))
      (zrange (Z.of_nat window - 1)%Z (Z.of_nat (length data))).

(** [undefined] read in arithmetic. *)
Definition undefined_num (x : option num) : num :=
  match x with Some v => v | None => NaN end.

(** [calculateEMA(data, window)]: [emaData] starts as [[data[0]]], whose
    element is [undefined] ([None]) on an empty array. *)
Definition calculateEMA (data : list num) (window : nat) : list (option num) :=
  let k := num_div (Fin 2) (num_add (nat_num window) (Fin 1)) in
  fold_left
    (fun emaData i =>
       (emaData ++
        [Some (num_add (num_mul (js_get data (Z.of_nat i)) k)
                       (num_mul (undefined_num (nth (i - 1) emaData None))
                                (num_sub (Fin 1) k)))])%list)
    (seq 1 (length data - 1)) [nth_error data 0].

(** [calculateRSI(data, window)]: the [null] padding is [None]. *)
Definition calculateRSI (data : list num) (window : nat) : list (option num) :=
  let deltas :=
    map (fun i => num_sub (js_get data (Z.of_nat i)) (js_get data (Z.of_nat i - 1)%Z))
        (seq 1 (length data - 1)) in
  let gains := map (fun d => if num_gt d (Fin 0) then d else Fin 0) deltas in
  let losses := map (fun d => if num_lt d (Fin 0) then num_abs d else Fin 0) deltas in
  let avgGain := calculateSMA gains window in
  let avgLoss := calculateSMA losses window in
  let rs := map (fun '(i, gain) => num_div gain (num_or (js_get avgLoss (Z.of_nat i)) (Fin 0.001)))
                (combine (seq 0 (length avgGain)) avgGain) in
  let rsi := map (fun rs => num_sub (Fin 100) (num_div (Fin 100) (num_add (Fin 1) rs))) rs in
  (repeat None window ++ map Some rsi)%list.

(** [linearRegression(xValues, yValues, predict)]: the four sums are
    accumulated over [i < xValues.length], reading [yValues[i]]. *)
Definition linearRegression (xValues yValues : list num) (predict : num) : num :=
  let n := length xValues in
  let '(sumX, sumY, sumXY, sumXX) :=
    fold_left
      (fun '(sx, sy, sxy, sxx) i =>
         let x := js_get xValues (Z.of_nat i) in
         let y := js_get yValues (Z.of_nat i) in
         (num_add sx x, num_add sy y, num_add sxy (num_mul x y),
          num_add sxx (num_mul x x)))
      (seq 0 n) (Fin 0, Fin 0, Fin 0, Fin 0) in
  let nn := nat_num n in
  let slope := num_div (num_sub (num_mul nn sumXY) (num_mul sumX sumY))
                       (num_sub (num_mul nn sumXX) (num_mul sumX sumX)) in
  let intercept := num_div (num_sub sumY (num_mul slope sumX)) nn in
  num_add (num_mul slope predict) intercept.

(** [Array.from({ length }, (_, j) => j + 1)] *)
Definition positions (len : nat) : list num :=
  map (fun j => nat_num (j + 1)) (seq 0 len).

(** [differenced]: [data[i] - data[i - 1]] for [1 <= i < data.length]. *)
Definition differences (data : list num) : list num :=
  map (fun i => num_sub (js_get data (Z.of_nat i)) (js_get data (Z.of_nat i - 1)))
      (seq 1 (length data - 1)).

Definition window := 5%nat.

(** The forecasting loop of [arimaInspiredPrediction], from iteration [i]
    with [fuel] iterations left.  [data] is the caller's array, extended in
    place by [data.push(nextVal)]; the loop returns the predictions and the
    array as it was left. *)
Fixpoint arima_loop (i fuel : nat) (differenced data predictions : list num)
  : list num * list num :=
  match fuel with
  | O => (predictions, data)
  | S fuel' =>
      let xValues := positions window in
      let startIdx := (Z.of_nat (length differenced) - Z.of_nat window)%Z in
      let yValues := js_slice differenced startIdx None in
      let nextDiff := linearRegression xValues yValues (nat_num (window + 1)) in
      let differenced' := differenced ++ [nextDiff] in
      let nextVal :=
        num_add (js_get data (Z.of_nat (length data) - 1 + Z.of_nat i)) nextDiff in
      arima_loop (S i) fuel' differenced' (data ++ [nextVal])
                 (predictions ++ [nextVal])
  end.

(** [arimaInspiredPrediction(data, daysToPredict)]: returns the predictions
    and the caller's array after the in-place pushes. *)
Definition arimaInspiredPrediction (data : list num) (daysToPredict : nat)
  : list num * list num :=
  arima_loop 0 daysToPredict (differences data) data [].

(** [findSupportResistance]: [sort_by] is the engine's [Array.prototype.sort]
    applied to the comparator [(a, b) => a - b] on a copy of [data].
    [Math.floor(len * 0.25)] and [Math.floor(len * 0.75)] are exact here. *)
Definition findSupportResistance
  (sort_by : (num -> num -> num) -> list num -> list num) (data : list num)
  : num * num :=
  let sorted := sort_by num_sub data in
  let len := length sorted in
  let q1Index := Nat.div len 4 in
  let q3Index := Nat.div (3 * len) 4 in
  (js_get sorted (Z.of_nat q1Index), js_get sorted (Z.of_nat q3Index)).

Definition determineTrend (data : list num) : Trend :=
  let recentDays := 10%Z in
  let recent := js_slice data (- recentDays) None in
  let startPrice := js_get recent 0 in
  let endPrice := js_get recent (Z.of_nat (length recent) - 1) in
  let percentChange :=
    num_mul (num_div (num_sub endPrice startPrice) startPrice) (Fin 100) in
  if num_gt percentChange (Fin 3) then Bullish
  else if num_lt percentChange (Fin (-3)) then Bearish
  else Neutral.

(** [calculateConfidence]; [Math.pow(x, 2)] is [x * x]. *)
Definition calculateConfidence (actual predicted : list num) : num :=
  if (length predicted =? 0)%nat || (length actual <? 10)%nat then Fin 0.5
  else
    let sum :=
      fold_left
        (fun acc '(i, pred) =>
           let error := num_sub pred (js_get actual (Z.of_nat i)) in
           num_add acc (num_mul error error))
        (combine (seq 0 (length predicted)) predicted) (Fin 0) in
    let mse := num_div sum (nat_num (length predicted)) in
    let lastScaled :=
      num_mul (js_get actual (Z.of_nat (length actual) - 1)) (Fin 0.2) in
    let maxMSE := num_mul lastScaled lastScaled in
    math_max (Fin 0) (math_min (Fin 1) (num_sub (Fin 1) (num_div mse maxMSE))).

Definition trainingWindow := 20%nat.

(** The back-fit loop: for [trainingWindow <= i < closePrices.length]. *)
Definition backfit (closePrices : list num) : list num :=
  map (fun i =>
         let trainingData :=
           js_slice closePrices (Z.of_nat (i - trainingWindow)) (Some (Z.of_nat i)) in
         linearRegression (positions trainingWindow) trainingData
                          (nat_num (trainingWindow + 1)))
      (seq trainingWindow (length closePrices - trainingWindow)).

(** [stockData.map(item => item.close)] *)
Definition closes_of (stockData : list StockTimeSeriesData) : list num :=
  map (fun item => Fin (close item)) stockData.

(** [predictStockPrices].  The locals [sma20], [ema12], [ema26], [rsi] and
    [macd] are computed by pure helpers on [closePrices] and never used; they
    are omitted.  [closePrices] is one array: both calls of
    [arimaInspiredPrediction] receive it and push into it, and every later
    use sees the pushed values. *)
Definition predictStockPrices
  (sort_by : (num -> num -> num) -> list num -> list num)
  (stockData : list StockTimeSeriesData) : PredictError + PredictionResult :=
  if (length stockData <? 30)%nat then inl InsufficientData
  else
    let closePrices := closes_of stockData in
    let dates := map date stockData in
    let predictedValues := map Some (backfit closePrices) in
    let predictedValues := repeat None trainingWindow ++ predictedValues in
    let '(dayPreds, closePrices) := arimaInspiredPrediction closePrices 1 in
    let nextDayPrediction := js_get dayPreds 0 in
    let '(weekPreds, closePrices) := arimaInspiredPrediction closePrices 7 in
    let nextWeekPrediction := js_get weekPreds 6 in
    let '(support, resistance) := findSupportResistance sort_by closePrices in
    let trend := determineTrend closePrices in
    let nonNullPredicted :=
      flat_map (fun p => match p with Some v => [v] | None => [] end)
               predictedValues in
    let actual := js_slice closePrices (- Z.of_nat (length nonNullPredicted)) None in
    let confidence := calculateConfidence actual nonNullPredicted in
    inr {| dates := dates;
           actual := closePrices;
           predicted := predictedValues;
           nextDayPrediction := nextDayPrediction;
           nextWeekPrediction := nextWeekPrediction;
           confidence := confidence;
           trend := trend;
           supportLevel := support;
           resistanceLevel := resistance |}.

End Forecast.

(* ------------------------------------------------------------------ *)
(** ** [Array.prototype.sort] with a comparator, as V8 runs it *)

Module V8Sort.

(** SortCompare: the comparator's result, with NaN read as [+0]. *)
Definition sort_compare (cmp : num -> num -> num) (x y : num) : num :=
  let v := cmp x y in if is_nan v then Fin 0 else v.

Definition below_zero (v : num) : bool := num_lt v (Fin 0).

(** CountAndMakeRun from index 0: the length of the leading run (a strictly
    descending run is reversed in place). *)
Definition count_and_make_run (cmp : num -> num -> num) (l : list num)
  : nat * list num :=
  match l with
  | a0 :: a1 :: rest =>
      let descending := below_zero (sort_compare cmp a1 a0) in
      let fix go (prev : num) (rest : list num) (n : nat) : nat :=
        match rest with
        | [] => n
        | c :: r =>
            let order := sort_compare cmp c prev in
            if (if descending then negb (below_zero order) else below_zero order)
            then n else go c r (S n)
        end in
      let runLength := go a1 rest 2%nat in
      (runLength,
       if descending then rev (firstn runLength l) ++ skipn runLength l else l)
  | _ => (length l, l)
  end.

(** The binary search of BinaryInsertionSort over the sorted prefix. *)
Fixpoint insertion_point (cmp : num -> num -> num) (pivot : num) (pre : list num)
  (left right fuel : nat) : nat :=
  match fuel with
  | O => left
  | S fuel' =>
      if (left <? right)%nat then
        let mid := (left + Nat.div (right - left) 2)%nat in
        if below_zero (sort_compare cmp pivot (nth mid pre NaN))
        then insertion_point cmp pivot pre left mid fuel'
        else insertion_point cmp pivot pre (S mid) right fuel'
      else left
  end.

Definition binary_insert (cmp : num -> num -> num) (pre : list num) (pivot : num)
  : list num :=
  let k := insertion_point cmp pivot pre 0 (length pre) (S (length pre)) in
  firstn k pre ++ pivot :: skipn k pre.

(** V8's TimSort on an array of fewer than 64 elements, where the minimum
    run length is the whole array: one run is detected, then extended over
    the rest of the array by binary insertion. *)
Definition v8_sort_small (cmp : num -> num -> num) (l : list num) : list num :=
  if (length l <? 2)%nat then l
  else
    let '(runLength, l') := count_and_make_run cmp l in
    fold_left (binary_insert cmp) (skipn runLength l') (firstn runLength l').

End V8Sort.

(* ------------------------------------------------------------------ *)
(** ** Indicator engine ([src/unnamed/part_001]) *)

Module Indicators.

(** [arr.reduce((sum, v) => sum + v, 0)] *)
Definition js_sum (l : list num) : num := fold_left num_add l (Fin 0).

(** [calculateSMA(data, period)]: NaN below [period - 1], otherwise the sum
    of [data[i - j]] for [j < period] divided by [period]. *)
Definition calculateSMA (data : list num) (period : nat) : list num :=
  map (fun i =>
         if (Z.of_nat i <? Z.of_nat period - 1)%Z then NaN
         else
           num_div
             (fold_left (fun s j => num_add s (js_get data (Z.of_nat i - Z.of_nat j)))
                        (seq 0 period) (Fin 0))
             (nat_num period))
      (seq 0 (length data)).

(** One Wilder update [((prev * (period - 1)) + x) / period]. *)
Definition wilder_step (period : nat) (prev x : num) : num :=
  num_div (num_add (num_mul prev (num_sub (nat_num period) (Fin 1))) x)
          (nat_num period).

(** The successive values of a Wilder-smoothed running average. *)
Fixpoint wilder_scan (period : nat) (prev : num) (xs : list num) : list num :=
  match xs with
  | [] => []
  | x :: xs' => let v := wilder_step period prev x in v :: wilder_scan period v xs'
  end.

(** [data[i] - data[i - 1]] for [1 <= i < data.length]. *)
Definition changes (data : list num) : list num :=
  map (fun i => num_sub (js_get data (Z.of_nat i)) (js_get data (Z.of_nat i - 1)))
      (seq 1 (length data - 1)).

(** The guarded ratio of [calculateRSI]: [avgLoss || 0.001]. *)
Definition rsi_value (avgGain avgLoss : num) : num :=
  num_sub (Fin 100)
          (num_div (Fin 100) (num_add (Fin 1) (num_div avgGain (num_or avgLoss (Fin 0.001))))).

(** [calculateRSI(data, period)].  Average gain and average loss follow two
    independent recurrences, each seeded with the mean of the first
    [period] values and updated with [gains[i - 1]] / [losses[i - 1]] for
    [period + 1 <= i < data.length]; they are scanned separately and the
    RSI of each pair is pushed. *)
Definition calculateRSI (data : list num) (period : nat) : list num :=
  let ch := changes data in
  let gains := map (fun c => if num_gt c (Fin 0) then c else Fin 0) ch in
  let losses := map (fun c => if num_lt c (Fin 0) then num_abs c else Fin 0) ch in
  let avgGain := num_div (js_sum (js_slice gains 0 (Some (Z.of_nat period)))) (nat_num period) in
  let avgLoss := num_div (js_sum (js_slice losses 0 (Some (Z.of_nat period)))) (nat_num period) in
  repeat NaN period
    ++ rsi_value avgGain avgLoss
    :: map (fun '(g, l) => rsi_value g l)
           (combine (wilder_scan period avgGain (skipn period gains))
                    (wilder_scan period avgLoss (skipn period losses))).

(** [calculateSmoothedAverage(data, period)] *)
Definition calculateSmoothedAverage (data : list num) (period : nat) : list num :=
  let firstValue :=
    num_div (js_sum (js_slice data 0 (Some (Z.of_nat period)))) (nat_num period) in
  firstValue :: wilder_scan period firstValue (skipn period data).

(** The first loop of [calculateADX]: true range, +DM and -DM for
    [1 <= i < closes.length]. *)
Definition true_range_and_dm (highs lows closes : list num)
  : list num * list num * list num :=
  let idx := seq 1 (length closes - 1) in
  let h i := js_get highs (Z.of_nat i) in
  let l i := js_get lows (Z.of_nat i) in
  let c i := js_get closes (Z.of_nat i) in
  let tr :=
    map (fun i =>
           let tr1 := num_sub (h i) (l i) in
           let tr2 := num_abs (num_sub (h i) (c (i - 1)%nat)) in
           let tr3 := num_abs (num_sub (l i) (c (i - 1)%nat)) in
           math_max (math_max tr1 tr2) tr3) idx in
  let plusDM :=
    map (fun i =>
           let upMove := num_sub (h i) (h (i - 1)%nat) in
           let downMove := num_sub (l (i - 1)%nat) (l i) in
           if num_gt upMove downMove && num_gt upMove (Fin 0) then upMove else Fin 0)
        idx in
  let minusDM :=
    map (fun i =>
           let upMove := num_sub (h i) (h (i - 1)%nat) in
           let downMove := num_sub (l (i - 1)%nat) (l i) in
           if num_gt downMove upMove && num_gt downMove (Fin 0) then downMove else Fin 0)
        idx in
  (tr, plusDM, minusDM).

(** [calculateADX(highs, lows, closes, period)] *)
Definition calculateADX (highs lows closes : list num) (period : nat) : list num :=
  let '(tr, plusDM, minusDM) := true_range_and_dm highs lows closes in
  let smoothedTR := calculateSmoothedAverage tr period in
  let smoothedPlusDM := calculateSmoothedAverage plusDM period in
  let smoothedMinusDM := calculateSmoothedAverage minusDM period in
  let idx := seq 0 (length smoothedTR) in
  let plusDI :=
    map (fun i => num_mul (num_div (js_get smoothedPlusDM (Z.of_nat i))
                                   (js_get smoothedTR (Z.of_nat i))) (Fin 100)) idx in
  let minusDI :=
    map (fun i => num_mul (num_div (js_get smoothedMinusDM (Z.of_nat i))
                                   (js_get smoothedTR (Z.of_nat i))) (Fin 100)) idx in
  let dx :=
    map (fun i =>
           let p := js_get plusDI (Z.of_nat i) in
           let m := js_get minusDI (Z.of_nat i) in
           num_mul (num_div (num_abs (num_sub p m)) (num_add p m)) (Fin 100))
        (seq 0 (length plusDI)) in
  let adx := num_div (js_sum (js_slice dx 0 (Some (Z.of_nat period)))) (nat_num period) in
  repeat NaN (period * 2 - 1) ++ adx :: wilder_scan period adx (skipn period dx).

(** The scan state of [calculateParabolicSAR]. *)
Record psar_state := {
  isUptrend : bool;
  ep : num;
  sar : num;
  af : num
}.

Definition psar_init (highs lows closes : list num) (initialAF : Q) : psar_state :=
  let up := num_gt (js_get closes 1) (js_get closes 0) in
  {| isUptrend := up;
     ep := if up then js_get highs 0 else js_get lows 0;
     sar := if up then js_get lows 0 else js_get highs 0;
     af := Fin initialAF |}.

(** The SAR of bar [i] after the update and the clamp. *)
Definition psar_next (highs lows : list num) (i : nat) (st : psar_state) : num :=
  let s := num_add (sar st) (num_mul (af st) (num_sub (ep st) (sar st))) in
  if isUptrend st then
    let s := math_min s (js_get lows (Z.of_nat i - 1)) in
    if (2 <=? i)%nat then math_min s (js_get lows (Z.of_nat i - 2)) else s
  else
    let s := math_max s (js_get highs (Z.of_nat i - 1)) in
    if (2 <=? i)%nat then math_max s (js_get highs (Z.of_nat i - 2)) else s.

(** The reversal test on the SAR just pushed. *)
Definition psar_reversal (highs lows : list num) (i : nat) (st : psar_state) (s : num)
  : bool :=
  (isUptrend st && num_lt (js_get lows (Z.of_nat i)) s)
  || (negb (isUptrend st) && num_gt (js_get highs (Z.of_nat i)) s).

(** One iteration of the loop: the value pushed and the new state. *)
Definition psar_step (highs lows : list num) (initialAF maxAF : Q) (i : nat)
  (st : psar_state) : num * psar_state :=
  let s := psar_next highs lows i st in
  let hi := js_get highs (Z.of_nat i) in
  let lo := js_get lows (Z.of_nat i) in
  if psar_reversal highs lows i st s then
    let up := negb (isUptrend st) in
    (s, {| isUptrend := up;
           sar := if up then lo else hi;
           ep := if up then hi else lo;
           af := Fin initialAF |})
  else if isUptrend st && num_gt hi (ep st) then
    (s, {| isUptrend := isUptrend st; sar := s; ep := hi;
           af := math_min (num_add (af st) (Fin initialAF)) (Fin maxAF) |})
  else if negb (isUptrend st) && num_lt lo (ep st) then
    (s, {| isUptrend := isUptrend st; sar := s; ep := lo;
           af := math_min (num_add (af st) (Fin initialAF)) (Fin maxAF) |})
  else
    (s, {| isUptrend := isUptrend st; sar := s; ep := ep st; af := af st |}).

(** The loop from bar [i], [fuel] bars left: pushed values and the states
    after each iteration. *)
Fixpoint psar_scan (highs lows : list num) (initialAF maxAF : Q) (i fuel : nat)
  (st : psar_state) : list num * list psar_state :=
  match fuel with
  | O => ([], [])
  | S fuel' =>
      let '(v, st') := psar_step highs lows initialAF maxAF i st in
      let '(vs, sts) := psar_scan highs lows initialAF maxAF (S i) fuel' st' in
      (v :: vs, st' :: sts)
  end.

(** [calculateParabolicSAR(highs, lows, closes, initialAF, maxAF)] for
    finite parameters: NaN first, then the loop over [1 <= i < closes.length]. *)
Definition calculateParabolicSAR (highs lows closes : list num) (initialAF maxAF : Q)
  : list num :=
  NaN :: fst (psar_scan highs lows initialAF maxAF 1 (length closes - 1)
                        (psar_init highs lows closes initialAF)).

(** Every state the scan goes through, the initial one first. *)
Definition psar_states (highs lows closes : list num) (initialAF maxAF : Q)
  : list psar_state :=
  let st0 := psar_init highs lows closes initialAF in
  st0 :: snd (psar_scan highs lows initialAF maxAF 1 (length closes - 1) st0).

(** One iteration of the loop of [calculateEMA]: the running [ema] and the
    values pushed so far. *)
Definition ema_step (data : list num) (period : nat) (multiplier : num)
  (st : num * list num) (i : nat) : num * list num :=
  let '(ema, result) := st in
  if (Z.of_nat i <? Z.of_nat period - 1)%Z then (ema, result ++ [NaN])
  else if (Z.of_nat i =? Z.of_nat period - 1)%Z then (ema, result ++ [ema])
  else
    let ema' := num_add (num_mul (js_get data (Z.of_nat i)) multiplier)
                        (num_mul ema (num_sub (Fin 1) multiplier)) in
    (ema', result ++ [ema']).

(** [calculateEMA(data, period)] of the indicator engine: seeded with the
    mean of [data.slice(0, period)]. *)
Definition calculateEMA (data : list num) (period : nat) : list num :=
  let multiplier := num_div (Fin 2) (num_add (nat_num period) (Fin 1)) in
  let ema := num_div (js_sum (js_slice data 0 (Some (Z.of_nat period)))) (nat_num period) in
  snd (fold_left (ema_step data period multiplier) (seq 0 (length data)) (ema, [])).

(** [arr.findIndex(p)], [-1] when no element satisfies [p]. *)
Fixpoint find_index {A} (p : A -> bool) (l : list A) : Z :=
  match l with
  | [] => (-1)%Z
  | x :: l' => if p x then 0%Z else
                 let k := find_index p l' in if (k <? 0)%Z then k else (k + 1)%Z
  end.

(** [arr[k] = v]: updates in range; past the end the array grows, the holes
    reading as [undefined] (NaN here); a negative index sets a property and
    leaves the elements alone. *)
Definition js_set (l : list num) (k : Z) (v : num) : list num :=
  if (k <? 0)%Z then l
  else
    let k' := Z.to_nat k in
    if (k' <? length l)%nat then firstn k' l ++ v :: skipn (S k') l
    else l ++ repeat NaN (k' - length l) ++ [v].

(** [isNaN(a) || isNaN(b) ? NaN : a - b] *)
Definition nan_or_diff (a b : num) : num :=
  if is_nan a || is_nan b then NaN else num_sub a b.

(** [calculateMACD(data, fastPeriod, slowPeriod, signalPeriod)]: line,
    signal and histogram. *)
Definition calculateMACD (data : list num) (fastPeriod slowPeriod signalPeriod : nat)
  : list num * list num * list num :=
  let fastEMA := calculateEMA data fastPeriod in
  let slowEMA := calculateEMA data slowPeriod in
  let macdLine :=
    map (fun i => nan_or_diff (js_get fastEMA (Z.of_nat i)) (js_get slowEMA (Z.of_nat i)))
        (seq 0 (length data)) in
  let validMacdLine := filter (fun v => negb (is_nan v)) macdLine in
  let signalLine := calculateEMA validMacdLine signalPeriod in
  let startIndex := find_index (fun v => negb (is_nan v)) macdLine in
  let signalStartIndex :=
    (startIndex + Z.of_nat (length validMacdLine) - Z.of_nat (length signalLine))%Z in
  let paddedSignalLine :=
    fold_left (fun acc i => js_set acc (signalStartIndex + Z.of_nat i)
                                   (js_get signalLine (Z.of_nat i)))
              (seq 0 (length signalLine)) (repeat NaN (length data)) in
  let histogram :=
    map (fun i => nan_or_diff (js_get macdLine (Z.of_nat i))
                              (js_get paddedSignalLine (Z.of_nat i)))
        (seq 0 (length data)) in
  (macdLine, paddedSignalLine, histogram).

(** [Math.pow(x, 2)] *)
Definition math_pow2 (x : num) : num := num_mul x x.

(** The inner loop of [calculateBollingerBands]: [sum += Math.pow(data[i - j]
    - middle[i], 2)] for [j = 0, 1, ...], leaving at the first [i - j < 0]. *)
Fixpoint sd_sum (data : list num) (mid : num) (i : Z) (js : list nat) (sum : num) : num :=
  match js with
  | [] => sum
  | j :: js' =>
      if (i - Z.of_nat j <? 0)%Z then sum
      else sd_sum data mid i js'
             (num_add sum (math_pow2 (num_sub (js_get data (i - Z.of_nat j)) mid)))
  end.

(** [calculateBollingerBands(data, period, stdDev)], returning
    [(upper, middle, lower)].  [math_sqrt] is the engine's [Math.sqrt]. *)
Definition calculateBollingerBands (math_sqrt : num -> num) (data : list num)
  (period : nat) (stdDev : num) : list num * list num * list num :=
  let middle := calculateSMA data period in
  let bands :=
    map (fun i =>
           let m := js_get middle (Z.of_nat i) in
           if is_nan m then (NaN, NaN)
           else
             let sum := sd_sum data m (Z.of_nat i) (seq 0 period) (Fin 0) in
             let sd := math_sqrt (num_div sum (nat_num period)) in
             (num_add m (num_mul stdDev sd), num_sub m (num_mul stdDev sd)))
        (seq 0 (length data)) in
  (map fst bands, middle, map snd bands).

Record TechnicalIndicators := {
  sma : list num;
  ema : list num;
  (** [(line, signal, histogram)] *)
  macd : list num * list num * list num;
  rsi : list num;
  (** [(upper, middle, lower)] *)
  bollingerBands : list num * list num * list num;
  volumes : list Z;
  dates : list String.string;
  adx : list num;
  parabolicSAR : list num
}.

(** [calculateAllIndicators(stockData)] with the default parameters of each
    indicator. *)
Definition calculateAllIndicators (math_sqrt : num -> num)
  (stockData : list Forecast.StockTimeSeriesData) : TechnicalIndicators :=
  let prices := map (fun data => Fin (Forecast.close data)) stockData in
  let highs := map (fun data => Fin (Forecast.high data)) stockData in
  let lows := map (fun data => Fin (Forecast.low data)) stockData in
  let volumes := map Forecast.volume stockData in
  let dates := map Forecast.date stockData in
  {| sma := calculateSMA prices 20;
     ema := calculateEMA prices 20;
     macd := calculateMACD prices 12 26 9;
     rsi := calculateRSI prices 14;
     bollingerBands := calculateBollingerBands math_sqrt prices 20 (Fin 2);
     volumes := volumes;
     dates := dates;
     adx := calculateADX highs lows prices 14;
     parabolicSAR := calculateParabolicSAR highs lows prices (2 # 100) (2 # 10) |}.

End Indicators.

(* ------------------------------------------------------------------ *)
(** ** Response checks of the API client ([src/unnamed/part_001]) *)

Module Api.

Import String.StringSyntax.
Local Open Scope string_scope.

(** A parsed JSON response as JavaScript sees it. *)
#[warnings="-register-all"]
Inductive js_value : Type :=
| JUndefined
| JNull
| JBool (b : bool)
| JNum (x : num)
| JStr (s : String.string)
| JArr (items : list js_value)
| JObj (members : list (String.string * js_value)).

(** JavaScript truthiness. *)
Definition truthy (v : js_value) : bool :=
  match v with
  | JUndefined | JNull => false
  | JBool b => b
  | JNum (Fin q) => negb (Qeq_bool q 0)
  | JNum NaN => false
  | JNum _ => true
  | JStr s => negb (String.eqb s "")
  | JArr _ | JObj _ => true
  end.

(** [typeof v === 'object'] *)
Definition is_object (v : js_value) : bool :=
  match v with JNull | JArr _ | JObj _ => true | _ => false end.

(** [v.key]: a member of an object (the last one of that name, as
    [JSON.parse] keeps it); [undefined] on anything else. *)
Definition get_prop (v : js_value) (key : String.string) : js_value :=
  match v with
  | JObj ms =>
      match find (fun '(k, _) => String.eqb key k) (rev ms) with
      | Some (_, x) => x
      | None => JUndefined
      end
  | _ => JUndefined
  end.

(** [a || b] *)
Definition js_or (a b : js_value) : js_value := if truthy a then a else b.

(** [s.includes(sub)] *)
Definition includes (s sub : String.string) : bool :=
  match String.index 0 sub s with Some _ => true | None => false end.

Definition checkForRateLimitError (data : js_value) : bool :=
  if truthy data && is_object data then
    let note := js_or (js_or (get_prop data "Note") (get_prop data "Information")) (JStr "") in
    match note with
    | JStr s =>
        includes s "API call frequency" || includes s "rate limit"
        || includes s "API key" || includes s "limit is 25"
    | _ => false
    end
  else false.

End Api.

(* ------------------------------------------------------------------ *)
(** ** Callers of [predictStockPrices] in the UI *)

Module Ui.

Import String.StringSyntax.
Local Open Scope string_scope.

(** The part of the [PredictionTabs] state ([src/unnamed/part_003]) that
    [loadTechnicalPrediction] and [loadTechnicalIndicators] read and write.
    The other slots ([llmPrediction], [isLoading], [activeTab]) are neither
    read nor written by them. *)
Record tabs_state := {
  technicalPrediction : option Forecast.PredictionResult;
  technicalIndicators : option Indicators.TechnicalIndicators;
  error : String.string
}.

Definition set_error (s : tabs_state) (e : String.string) : tabs_state :=
  {| technicalPrediction := technicalPrediction s;
     technicalIndicators := technicalIndicators s; error := e |}.

Definition set_technical (s : tabs_state) (p : option Forecast.PredictionResult)
  : tabs_state :=
  {| technicalPrediction := p;
     technicalIndicators := technicalIndicators s; error := error s |}.

Definition set_indicators (s : tabs_state) (v : option Indicators.TechnicalIndicators)
  : tabs_state :=
  {| technicalPrediction := technicalPrediction s;
     technicalIndicators := v; error := error s |}.

Definition insufficient_msg : String.string :=
  "Insufficient data for prediction. Need at least 30 data points.".

Definition failed_msg : String.string :=
  "Failed to generate technical prediction.".

(** [loadTechnicalPrediction]: the [try] body; an [Error] thrown by
    [predictStockPrices] reaches the [catch]. *)
Definition loadTechnicalPrediction
  (sort_by : (num -> num -> num) -> list num -> list num)
  (data : list Forecast.StockTimeSeriesData) (s : tabs_state) : tabs_state :=
  if (length data <? 30)%nat then set_error s insufficient_msg
  else
    match Forecast.predictStockPrices sort_by data with
    | inr prediction => set_technical s (Some prediction)
    | inl _ => set_error s failed_msg
    end.

(** The [useEffect] run when [data] changes: reset, then load.  The reset
    of [llmPrediction] is outside [tabs_state]. *)
Definition on_data_change
  (sort_by : (num -> num -> num) -> list num -> list num)
  (data : list Forecast.StockTimeSeriesData) (s : tabs_state) : tabs_state :=
  if (0 <? length data)%nat then
    let s := set_technical s None in
    let s := set_indicators s None in
    let s := set_error s "" in
    loadTechnicalPrediction sort_by data s
  else s.

Definition insufficient_indicators_msg : String.string :=
  "Insufficient data for technical indicators. Need at least 30 data points.".

(** [loadTechnicalIndicators]: the [Error] thrown on short data is caught and
    its (non-empty) message set; [calculateAllIndicators] throws nothing.
    [math_sqrt] is the engine's [Math.sqrt]. *)
Definition loadTechnicalIndicators (math_sqrt : num -> num)
  (data : list Forecast.StockTimeSeriesData) (s : tabs_state) : tabs_state :=
  match technicalIndicators s with
  | Some _ => s
  | None =>
      if (length data <? 30)%nat then set_error s insufficient_indicators_msg
      else set_indicators s (Some (Indicators.calculateAllIndicators math_sqrt data))
  end.

(** A cell of a chart row: [undefined] (an array read out of range),
    [null], or a number. *)
Inductive cell := CUndefined | CNull | CNum (x : num).

(** [a[i]] on a [number[]] *)
Definition cell_of_num_at (l : list num) (i : nat) : cell :=
  match nth_error l i with Some x => CNum x | None => CUndefined end.

(** [a[i]] on a [(number | null)[]] *)
Definition cell_of_opt_at (l : list (option num)) (i : nat) : cell :=
  match nth_error l i with
  | Some (Some x) => CNum x
  | Some None => CNull
  | None => CUndefined
  end.

Record chart_row := {
  row_date : String.string;
  row_actual : cell;
  row_predicted : cell
}.

(** [Array.prototype.map] with the index argument, starting at [i]. *)
Fixpoint mapi_from {A B} (f : nat -> A -> B) (i : nat) (l : list A) : list B :=
  match l with
  | [] => []
  | x :: l' => f i x :: mapi_from f (S i) l'
  end.

(** A row of [chartData] in [TechnicalIndicatorsChart]. *)
Record indicator_row := {
  ir_date : String.string;
  ir_price : Q;
  ir_volume : Z;
  ir_sma : cell;
  ir_ema : cell;
  ir_upper : cell;
  ir_middle : cell;
  ir_lower : cell;
  ir_macdLine : cell;
  ir_macdSignal : cell;
  ir_macdHistogram : cell;
  ir_rsi : cell;
  ir_adx : cell;
  ir_psar : cell
}.

(** [chartData] of [TechnicalIndicatorsChart]
    ([src/src/components/TechnicalIndicatorsChart.tsx]). *)
Definition indicators_chartData (data : list Forecast.StockTimeSeriesData)
  (indicators : Indicators.TechnicalIndicators) : list indicator_row :=
  let '(upper, middle, lower) := Indicators.bollingerBands indicators in
  let '(line, signal, histogram) := Indicators.macd indicators in
  mapi_from (fun index item =>
    {| ir_date := Forecast.date item;
       ir_price := Forecast.close item;
       ir_volume := Forecast.volume item;
       ir_sma := cell_of_num_at (Indicators.sma indicators) index;
       ir_ema := cell_of_num_at (Indicators.ema indicators) index;
       ir_upper := cell_of_num_at upper index;
       ir_middle := cell_of_num_at middle index;
       ir_lower := cell_of_num_at lower index;
       ir_macdLine := cell_of_num_at line index;
       ir_macdSignal := cell_of_num_at signal index;
       ir_macdHistogram := cell_of_num_at histogram index;
       ir_rsi := cell_of_num_at (Indicators.rsi indicators) index;
       ir_adx := cell_of_num_at (Indicators.adx indicators) index;
       ir_psar := cell_of_num_at (Indicators.parabolicSAR indicators) index |})
    0 data.

(** [chartData] of [StockPrediction]
    ([src/src/components/TechnicalIndicatorsChart.tsx]).  The two pushed
    rows carry the formatted dates of tomorrow and of a week from today,
    which depend on the clock; they are the arguments [nextDay] and
    [nextWeek]. *)
Definition chartData (prediction : Forecast.PredictionResult)
  (nextDay nextWeek : String.string) : list chart_row :=
  (mapi_from (fun i date =>
     {| row_date := date;
        row_actual := cell_of_num_at (Forecast.actual prediction) i;
        row_predicted := cell_of_opt_at (Forecast.predicted prediction) i |})
     0 (Forecast.dates prediction)
  ++ [ {| row_date := nextDay; row_actual := CNull;
          row_predicted := CNum (Forecast.nextDayPrediction prediction) |};
       {| row_date := nextWeek; row_actual := CNull;
          row_predicted := CNum (Forecast.nextWeekPrediction prediction) |} ])%list.

(** [Math.round]: [floor(x + 1/2)] on finite values. *)
Definition math_round (x : num) : num :=
  match x with
  | Fin q => Fin (inject_Z (Qfloor (q + (1 # 2))))
  | _ => x
  end.

Definition confidencePercentage (prediction : Forecast.PredictionResult) : num :=
  math_round (num_mul (Forecast.confidence prediction) (Fin 100)).

End Ui.

(* ------------------------------------------------------------------ *)
(** ** Concrete inputs *)

(** A bar whose four prices are [c]. *)
Definition bar_at (c : Q) : Forecast.StockTimeSeriesData :=
  {| Forecast.date := String.EmptyString; Forecast.open := c; Forecast.high := c;
     Forecast.low := c; Forecast.close := c; Forecast.volume := 0%Z |}.

(** Thirty bars closing at 1, 2, ..., 30. *)
Definition rising30 : list Forecast.StockTimeSeriesData :=
  map (fun k => bar_at (inject_Z (Z.of_nat k))) (seq 1 30).

(** Thirty flat bars: every high, low and close is 100. *)
Definition flat30 : list num := repeat (Fin 100) 30.

(** Three bars: an uptrend extended at bar 1 and reversed at bar 2. *)
Definition psar_highs : list num := [Fin 10; Fin 12; Fin 9].
Definition psar_lows : list num := [Fin 9; Fin 11; Fin 5].
Definition psar_closes : list num := [Fin 9.5; Fin 11.5; Fin 6].

(** The arithmetic mean of a list of finite values, as the spec states it. *)
Definition arith_mean (l : list Q) : Q :=
  fold_right Qplus 0 l / inject_Z (Z.of_nat (length l)).

(** The acceleration factor of a SAR state is finite and within bounds. *)
Definition af_bounded (initialAF maxAF : Q) (st : Indicators.psar_state) : Prop :=
  exists q, Indicators.af st = Fin q /\ (initialAF <= q <= maxAF)%Q.

(** A placeholder state, the default of [nth] on state lists. *)
Definition psar_default : Indicators.psar_state :=
  Indicators.psar_init [] [] [] 0.

(* ------------------------------------------------------------------ *)
(** ** Predicates used by the further properties *)

(** A finite number. *)
Definition is_fin (x : num) : Prop := exists q, x = Fin q.

(** [x] is a finite number equal to [q] as a rational. *)
Definition approx (x : num) (q : Q) : Prop := exists r, x = Fin r /\ r == q.

(** [x] is [NaN] or finite. *)
Definition nan_or_fin (x : num) : Prop := x = NaN \/ is_fin x.

(** A finite, non-negative number. *)
Definition fin_nonneg (x : num) : Prop := exists q, x = Fin q /\ 0 <= q.

(** A zero, as [approx] states it. *)
Definition approx0 (x : num) : Prop := approx x 0.

(** A SAR value that cannot lie above [b]. *)
Definition below (b : Q) (s : num) : Prop :=
  s = NaN \/ s = NInf \/ exists r, s = Fin r /\ r <= b.

(** Closed forms of [1 + ... + k] and [1^2 + ... + k^2]. *)
Definition sum1 (k : Q) : Q := k * (k + 1) / 2.
Definition sum2 (k : Q) : Q := k * (k + 1) * (2 * k + 1) / 6.

(** The four running sums of [linearRegression] after [k] points of the line
    [a * x + b], with [x = 1, 2, ...]. *)
Definition linreg_inv (a b : Q) (k : nat) (st : num * num * num * num) : Prop :=
  let K := inject_Z (Z.of_nat k) in
  let '(sx, sy, sxy, sxx) := st in
  approx sx (sum1 K) /\ approx sy (a * sum1 K + b * K) /\
  approx sxy (a * sum2 K + b * sum1 K) /\ approx sxx (sum2 K).

(** Order of finite numbers. *)
Definition nle (a b : num) : Prop := exists p q, a = Fin p /\ b = Fin q /\ p <= q.

(** A list ordered by [R] at every pair of positions. *)
Definition sorted_by (R : num -> num -> Prop) (l : list num) : Prop :=
  forall i j, (i < j < length l)%nat -> R (nth i l NaN) (nth j l NaN).

(** Neighbours related by [R], starting from [prev]. *)
Fixpoint chain (R : num -> num -> Prop) (prev : num) (l : list num) : Prop :=
  match l with [] => True | c :: l' => R prev c /\ chain R c l' end.

(* ------------------------------------------------------------------ *)
(** ** Array and forecast lemmas *)

Lemma js_get_out (l : list num) (k : Z) :
  (Z.of_nat (length l) <= k)%Z -> js_get l k = NaN.
Proof.
  intros H. unfold js_get.
  destruct (k <? 0)%Z eqn:E; [reflexivity|].
  apply nth_overflow. lia.
Qed.

Lemma js_get_last (l : list num) (x : num) :
  js_get (l ++ [x]) (Z.of_nat (length (l ++ [x])) - 1) = x.
Proof.
  unfold js_get. rewrite length_app. simpl.
  replace (Z.of_nat (length l + 1) - 1 <? 0)%Z with false
    by (symmetry; apply Z.ltb_ge; lia).
  replace (Z.to_nat (Z.of_nat (length l + 1) - 1)) with (length l) by lia.
  rewrite app_nth2 by lia. rewrite Nat.sub_diag. reflexivity.
Qed.

(** From its second iteration on, the loop reads [data] past its end. *)
Lemma arima_loop_tail : forall f i d data preds, (1 <= i)%nat ->
  Forecast.arima_loop i f d data preds = (preds ++ repeat NaN f, data ++ repeat NaN f).
Proof.
  induction f as [|f IH]; intros i d data preds Hi.
  - cbn [Forecast.arima_loop repeat]. rewrite !app_nil_r. reflexivity.
  - cbn [Forecast.arima_loop].
    rewrite js_get_out by lia.
    rewrite IH by lia.
    rewrite <- !app_assoc. reflexivity.
Qed.

Lemma arima_shape (data : list num) (f : nat) : exists v,
  Forecast.arimaInspiredPrediction data (S f) = (v :: repeat NaN f, data ++ v :: repeat NaN f).
Proof.
  unfold Forecast.arimaInspiredPrediction. cbn [Forecast.arima_loop].
  rewrite arima_loop_tail by lia.
  eexists. f_equal; [reflexivity|]. rewrite <- app_assoc. reflexivity.
Qed.

Lemma nonnull_backfit (l : list num) :
  flat_map (fun p : option num => match p with Some v => [v] | None => [] end)
           (repeat None Forecast.trainingWindow ++ map Some l) = l.
Proof.
  rewrite flat_map_app. simpl.
  induction l as [|x l IH]; simpl; [reflexivity|]. rewrite IH. reflexivity.
Qed.

Lemma backfit_length (cs : list num) :
  length (Forecast.backfit cs) = (length cs - Forecast.trainingWindow)%nat.
Proof. unfold Forecast.backfit. rewrite length_map, length_seq. reflexivity. Qed.

(** The result of [predictStockPrices] on at least 30 bars, with both
    forecast runs pushed into [closePrices]. *)
Lemma predict_shape sort_by bars : (30 <= length bars)%nat ->
  exists p1 q0,
    Forecast.arimaInspiredPrediction (Forecast.closes_of bars) 1
      = ([p1], Forecast.closes_of bars ++ [p1]) /\
    Forecast.arimaInspiredPrediction (Forecast.closes_of bars ++ [p1]) 7
      = (q0 :: repeat NaN 6, Forecast.closes_of bars ++ [p1] ++ q0 :: repeat NaN 6) /\
    let cp := Forecast.closes_of bars ++ p1 :: q0 :: repeat NaN 6 in
    let bf := Forecast.backfit (Forecast.closes_of bars) in
    Forecast.predictStockPrices sort_by bars = inr
      {| Forecast.dates := map Forecast.date bars;
         Forecast.actual := cp;
         Forecast.predicted := repeat None Forecast.trainingWindow ++ map Some bf;
         Forecast.nextDayPrediction := p1;
         Forecast.nextWeekPrediction := NaN;
         Forecast.confidence :=
           Forecast.calculateConfidence (js_slice cp (- Z.of_nat (length bf)) None) bf;
         Forecast.trend := Forecast.determineTrend cp;
         Forecast.supportLevel := fst (Forecast.findSupportResistance sort_by cp);
         Forecast.resistanceLevel := snd (Forecast.findSupportResistance sort_by cp) |}.
Proof.
  intros H.
  destruct (arima_shape (Forecast.closes_of bars) 0) as [p1 E1].
  destruct (arima_shape (Forecast.closes_of bars ++ [p1]) 6) as [q0 E2].
  exists p1, q0. split; [exact E1|]. split; [rewrite E2, <- app_assoc; reflexivity|].
  cbv zeta. unfold Forecast.predictStockPrices.
  replace (length bars <? 30)%nat with false by (symmetry; apply Nat.ltb_ge; lia).
  cbn [repeat] in E1. rewrite E1. cbv beta iota zeta. rewrite E2. cbv beta iota zeta.
  rewrite nonnull_backfit, <- app_assoc.
  destruct (Forecast.findSupportResistance sort_by _). reflexivity.
Qed.

Lemma num_div_nan_r (x : num) : num_div x NaN = NaN.
Proof. destruct x; reflexivity. Qed.

(** [l.slice(-k)] is the suffix of [k] elements. *)
Lemma slice_suffix {A} (l : list A) (k : nat) : (1 <= k <= length l)%nat ->
  js_slice l (- Z.of_nat k) None = skipn (length l - k) l.
Proof.
  intros Hk. unfold js_slice, js_rel.
  replace (- Z.of_nat k <? 0)%Z with true by (symmetry; apply Z.ltb_lt; lia).
  replace (Z.to_nat (Z.max 0 (Z.of_nat (length l) + - Z.of_nat k)))
    with (length l - k)%nat by lia.
  apply firstn_all2. rewrite length_skipn. lia.
Qed.

Lemma skipn_snoc {A} (l : list A) (x : A) (m : nat) : (m <= length l)%nat ->
  skipn m (l ++ [x]) = skipn m l ++ [x].
Proof.
  intros Hm. rewrite skipn_app. replace (m - length l)%nat with 0%nat by lia.
  reflexivity.
Qed.

(** A suffix of at least [k] elements of an array ending in NaN. *)
Lemma slice_last_nan (l : list num) (k : nat) : (1 <= k <= S (length l))%nat ->
  exists B, js_slice (l ++ [NaN]) (- Z.of_nat k) None = B ++ [NaN]
            /\ length (B ++ [NaN]) = k.
Proof.
  intros Hk. rewrite slice_suffix by (rewrite length_app; simpl; lia).
  rewrite length_app. simpl.
  rewrite skipn_snoc by lia.
  eexists. split; [reflexivity|].
  rewrite length_app, length_skipn. simpl. lia.
Qed.

(** [determineTrend] on an array whose last element is NaN. *)
Lemma determineTrend_nan_last (l : list num) : (9 <= length l)%nat ->
  Forecast.determineTrend (l ++ [NaN]) = Forecast.Neutral.
Proof.
  intros Hl. unfold Forecast.determineTrend. cbv zeta.
  change (Z.opp 10%Z) with (Z.opp (Z.of_nat 10)).
  destruct (slice_last_nan l 10) as [B [EB _]]; [lia|].
  rewrite EB, js_get_last. reflexivity.
Qed.

(** [calculateConfidence] past its guard, on actual values ending in NaN. *)
Lemma confidence_nan_last (l pred : list num) :
  length pred <> 0%nat -> (10 <= length (l ++ [NaN]))%nat ->
  Forecast.calculateConfidence (l ++ [NaN]) pred = NaN.
Proof.
  intros Hp Hl. unfold Forecast.calculateConfidence.
  replace (length pred =? 0)%nat with false by (symmetry; apply Nat.eqb_neq; exact Hp).
  replace (length (l ++ [NaN]) <? 10)%nat with false by (symmetry; apply Nat.ltb_ge; lia).
  cbv zeta. rewrite js_get_last. cbn [num_mul]. rewrite num_div_nan_r. reflexivity.
Qed.

Lemma predict_inr_long sort_by bars r :
  Forecast.predictStockPrices sort_by bars = inr r -> (30 <= length bars)%nat.
Proof.
  unfold Forecast.predictStockPrices.
  destruct (length bars <? 30)%nat eqn:E; [discriminate|].
  intros _. apply Nat.ltb_ge. exact E.
Qed.

Lemma closes_of_length bars : length (Forecast.closes_of bars) = length bars.
Proof. apply length_map. Qed.

(** [closePrices] after both forecast runs, as an array ending in NaN. *)
Lemma pushed_closes_snoc (cs : list num) (p1 q0 : num) :
  cs ++ p1 :: q0 :: repeat NaN 6 = (cs ++ [p1; q0; NaN; NaN; NaN; NaN; NaN]) ++ [NaN].
Proof. rewrite <- app_assoc. reflexivity. Qed.

(* ------------------------------------------------------------------ *)
(** ** Claims on the forecast engine *)

(** C1 (code_bug): the two forecasts are not computed independently.  The
    1-day run pushes its prediction into [closePrices], so the 7-day run
    starts from the closes followed by [nextDayPrediction]; and since the
    loop reads [data[data.length - 1 + i]] after its own pushes, every step
    past the first reads out of range, so [nextWeekPrediction] is NaN. *)
Theorem predict_week_run_sees_day_run sort_by bars : (30 <= length bars)%nat ->
  match Forecast.predictStockPrices sort_by bars with
  | inr r =>
      Forecast.arimaInspiredPrediction (Forecast.closes_of bars) 1
        = ([Forecast.nextDayPrediction r],
           Forecast.closes_of bars ++ [Forecast.nextDayPrediction r]) /\
      Forecast.nextWeekPrediction r
        = js_get (fst (Forecast.arimaInspiredPrediction
                         (Forecast.closes_of bars ++ [Forecast.nextDayPrediction r]) 7)) 6 /\
      Forecast.nextWeekPrediction r = NaN
  | inl _ => False
  end.
Proof.
  intros H. destruct (predict_shape sort_by bars H) as [p1 [q0 [E1 [E2 E]]]].
  cbv zeta in E. rewrite E. cbn [Forecast.nextDayPrediction Forecast.nextWeekPrediction].
  rewrite E2. split; [exact E1|]. split; reflexivity.
Qed.

(** C2 (code_bug): [actual] is the very array the forecast runs pushed into:
    it has 8 more entries than the input, the input closes first and six
    NaN last. *)
Theorem predict_actual_is_pushed_array sort_by bars : (30 <= length bars)%nat ->
  match Forecast.predictStockPrices sort_by bars with
  | inr r =>
      length (Forecast.actual r) = (length bars + 8)%nat /\
      firstn (length bars) (Forecast.actual r) = Forecast.closes_of bars /\
      skipn (length bars + 2) (Forecast.actual r) = repeat NaN 6
  | inl _ => False
  end.
Proof.
  intros H. destruct (predict_shape sort_by bars H) as [p1 [q0 [_ [_ E]]]].
  cbv zeta in E. rewrite E. cbn [Forecast.actual].
  rewrite <- (closes_of_length bars).
  split; [rewrite length_app; reflexivity|].
  split.
  - rewrite firstn_app, Nat.sub_diag, firstn_all2 by lia. apply app_nil_r.
  - rewrite skipn_app, skipn_all2 by lia.
    replace (length (Forecast.closes_of bars) + 2 - length (Forecast.closes_of bars))%nat
      with 2%nat by lia.
    reflexivity.
Qed.

(** C5 (code_bug): [determineTrend] reads [closePrices] after the forecast
    runs pushed into it; its last element is NaN, the percent change is NaN,
    and the trend is [neutral] for every input of at least 30 bars. *)
Theorem predict_trend_always_neutral sort_by bars : (30 <= length bars)%nat ->
  match Forecast.predictStockPrices sort_by bars with
  | inr r => Forecast.trend r = Forecast.Neutral
  | inl _ => False
  end.
Proof.
  intros H. destruct (predict_shape sort_by bars H) as [p1 [q0 [_ [_ E]]]].
  cbv zeta in E. rewrite E. cbn [Forecast.trend].
  rewrite pushed_closes_snoc. apply determineTrend_nan_last.
  rewrite length_app, closes_of_length. simpl. lia.
Qed.

(** C8 (code_bug): the [actual] values handed to [calculateConfidence] are
    the last [n - 20] entries of the pushed [closePrices]; the last one is
    NaN, so the reference error and the confidence are NaN, outside
    [[0, 1]], for every input of at least 30 bars. *)
Theorem predict_confidence_nan sort_by bars : (30 <= length bars)%nat ->
  match Forecast.predictStockPrices sort_by bars with
  | inr r => Forecast.confidence r = NaN
  | inl _ => False
  end.
Proof.
  intros H. destruct (predict_shape sort_by bars H) as [p1 [q0 [_ [_ E]]]].
  cbv zeta in E. rewrite E. cbn [Forecast.confidence].
  rewrite pushed_closes_snoc.
  set (bf := Forecast.backfit (Forecast.closes_of bars)).
  assert (Hbf : length bf = (length bars - 20)%nat).
  { unfold bf. rewrite backfit_length, closes_of_length. reflexivity. }
  destruct (slice_last_nan (Forecast.closes_of bars ++ [p1; q0; NaN; NaN; NaN; NaN; NaN])
                           (length bf)) as [B [EB HB]].
  { rewrite length_app, closes_of_length. simpl. lia. }
  rewrite EB. apply confidence_nan_last; [lia|]. rewrite HB. lia.
Qed.

(** C6 (confirmed): [predictStockPrices] ends in the insufficient-data error
    exactly when fewer than 30 bars are given; otherwise it returns a result
    whose [dates] and [predicted] are aligned with the input. *)
Theorem predict_error_iff_short sort_by bars :
  match Forecast.predictStockPrices sort_by bars with
  | inl Forecast.InsufficientData => (length bars < 30)%nat
  | inr r =>
      (30 <= length bars)%nat /\
      length (Forecast.dates r) = length bars /\
      length (Forecast.predicted r) = length bars
  end.
Proof.
  destruct (Nat.lt_ge_cases (length bars) 30) as [Hs | Hl].
  - unfold Forecast.predictStockPrices.
    replace (length bars <? 30)%nat with true by (symmetry; apply Nat.ltb_lt; exact Hs).
    exact Hs.
  - destruct (predict_shape sort_by bars Hl) as [p1 [q0 [_ [_ E]]]].
    cbv zeta in E. rewrite E. cbn [Forecast.dates Forecast.predicted].
    split; [exact Hl|]. split; [apply length_map|].
    rewrite length_app, repeat_length, length_map, backfit_length, closes_of_length.
    unfold Forecast.trainingWindow. lia.
Qed.

(** C7 (code_bug): [findSupportResistance] sorts the pushed [closePrices]
    (38 entries, six of them NaN, for 30 bars), so the quartile indices are
    taken on the wrong array.  On the closes 1..30, with V8's sort, support
    and resistance are 10 and 29, while the sorted input closes hold 8 and
    23 at [floor(30 * 0.25) = 7] and [floor(30 * 0.75) = 22]. *)
Theorem predict_support_resistance_rising30 :
  match Forecast.predictStockPrices V8Sort.v8_sort_small rising30 with
  | inr r =>
      num_eqb (Forecast.supportLevel r) (Fin 10) &&
      num_eqb (Forecast.resistanceLevel r) (Fin 29) &&
      num_eqb (js_get (V8Sort.v8_sort_small num_sub (Forecast.closes_of rising30)) 7) (Fin 8) &&
      num_eqb (js_get (V8Sort.v8_sort_small num_sub (Forecast.closes_of rising30)) 22) (Fin 23)
  | inl _ => false
  end = true.
Proof. vm_compute. reflexivity. Qed.

(* ------------------------------------------------------------------ *)
(** ** Indicator lemmas *)

Lemma nth_map_seq {B} (f : nat -> B) (n i : nat) (d : B) : (i < n)%nat ->
  nth i (map f (seq 0 n)) d = f i.
Proof.
  intros Hi. rewrite nth_indep with (d' := f 0%nat) by (rewrite length_map, length_seq; lia).
  rewrite map_nth, seq_nth by lia. reflexivity.
Qed.

Lemma js_get_map_fin (data : list Q) (k : nat) : (k < length data)%nat ->
  js_get (map Fin data) (Z.of_nat k) = Fin (nth k data 0).
Proof.
  intros Hk. unfold js_get.
  replace (Z.of_nat k <? 0)%Z with false by (symmetry; apply Z.ltb_ge; lia).
  rewrite Nat2Z.id.
  change NaN with ((fun _ : Q => NaN) 0).
  rewrite nth_indep with (d' := Fin 0) by (rewrite length_map; exact Hk).
  rewrite map_nth. reflexivity.
Qed.

Lemma skipn_nth_cons {A} (l : list A) (n : nat) (d : A) : (n < length l)%nat ->
  skipn n l = nth n l d :: skipn (S n) l.
Proof.
  revert n. induction l as [|x l IH]; intros n Hn; simpl in Hn; [lia|].
  destruct n as [|n]; [reflexivity|].
  simpl. apply IH. lia.
Qed.

(** The inner loop of [calculateSMA] sums the trailing window. *)
Lemma sma_window_sum (data : list Q) (i P : nat) :
  (P <= i + 1)%nat -> (i < length data)%nat ->
  exists s,
    fold_left (fun s j => num_add s (js_get (map Fin data) (Z.of_nat i - Z.of_nat j)))
              (seq 0 P) (Fin 0) = Fin s /\
    s == fold_right Qplus 0 (firstn P (skipn (i + 1 - P) data)).
Proof.
  intros HP Hi. induction P as [|P IH].
  - exists 0. split; [reflexivity|]. rewrite firstn_O. reflexivity.
  - destruct IH as [s [Es Hs]]; [lia|].
    rewrite seq_S, fold_left_app, Es. cbn [fold_left Nat.add].
    rewrite <- Nat2Z.inj_sub by lia.
    rewrite js_get_map_fin by lia.
    eexists. split; [reflexivity|].
    replace (i + 1 - S P)%nat with (i - P)%nat by lia.
    rewrite (skipn_nth_cons data (i - P) 0) by lia.
    replace (S (i - P)) with (i + 1 - P)%nat by lia.
    rewrite firstn_cons. cbn [fold_right].
    rewrite Qred_correct, Hs. apply Qplus_comm.
Qed.

Lemma inject_nat_nonzero (P : nat) : (0 < P)%nat ->
  Qeq_bool (inject_Z (Z.of_nat P)) 0 = false.
Proof.
  intros HP. destruct (Qeq_bool _ 0) eqn:E; [|reflexivity].
  apply Qeq_bool_eq in E. unfold Qeq, inject_Z in E. simpl in E. lia.
Qed.

(* ------------------------------------------------------------------ *)
(** ** Claims on the indicator engine *)

(** C9 (confirmed): for a period [P >= 1], [calculateSMA(data, P)] is
    index-aligned with [data]; on inputs shorter than [P] every entry is NaN;
    otherwise entries below [P - 1] are NaN and entry [i >= P - 1] is the
    arithmetic mean of [data[i - P + 1 .. i]]. *)
Theorem sma_aligned_mean (data : list Q) (P : nat) : (0 < P)%nat ->
  length (Indicators.calculateSMA (map Fin data) P) = length data /\
  ((length data < P)%nat ->
   forall x, In x (Indicators.calculateSMA (map Fin data) P) -> x = NaN) /\
  (forall i, (i < length data)%nat ->
   ((i < P - 1)%nat -> nth i (Indicators.calculateSMA (map Fin data) P) NaN = NaN) /\
   ((P - 1 <= i)%nat ->
    exists q, nth i (Indicators.calculateSMA (map Fin data) P) NaN = Fin q /\
              q == arith_mean (firstn P (skipn (i + 1 - P) data)))).
Proof.
  intros HP.
  assert (Hlen : length (Indicators.calculateSMA (map Fin data) P) = length data).
  { unfold Indicators.calculateSMA. rewrite length_map, length_seq, length_map. reflexivity. }
  assert (Hlow : forall i, (i < length data)%nat -> (i < P - 1)%nat ->
                 nth i (Indicators.calculateSMA (map Fin data) P) NaN = NaN).
  { intros i Hi Hlt. unfold Indicators.calculateSMA.
    rewrite nth_map_seq by (rewrite length_map; exact Hi).
    replace (Z.of_nat i <? Z.of_nat P - 1)%Z with true by (symmetry; apply Z.ltb_lt; lia).
    reflexivity. }
  split; [exact Hlen|]. split.
  - intros Hshort x Hx.
    destruct (In_nth _ _ NaN Hx) as [i [Hi Ei]].
    rewrite Hlen in Hi. rewrite <- Ei. apply Hlow; lia.
  - intros i Hi. split; [apply Hlow; exact Hi|].
    intros Hge. unfold Indicators.calculateSMA.
    rewrite nth_map_seq by (rewrite length_map; exact Hi).
    replace (Z.of_nat i <? Z.of_nat P - 1)%Z with false by (symmetry; apply Z.ltb_ge; lia).
    destruct (sma_window_sum data i P) as [s [Es Hs]]; [lia | exact Hi |].
    rewrite Es. unfold num_div, nat_num. rewrite inject_nat_nonzero by exact HP.
    eexists. split; [reflexivity|].
    unfold arith_mean.
    rewrite length_firstn, length_skipn.
    replace (Nat.min P (length data - (i + 1 - P))) with P by lia.
    rewrite Qred_correct, Hs. reflexivity.
Qed.

(** The capped increment keeps the acceleration factor within bounds. *)
Lemma af_increment_bounded (initialAF maxAF q : Q) :
  (0 <= initialAF)%Q -> (initialAF <= maxAF)%Q -> (initialAF <= q <= maxAF)%Q ->
  exists r, math_min (num_add (Fin q) (Fin initialAF)) (Fin maxAF) = Fin r
            /\ (initialAF <= r <= maxAF)%Q.
Proof.
  intros H0 Hm [Hq1 Hq2]. unfold math_min. cbn [num_add is_nan orb num_lt].
  unfold Qltb. destruct (Qle_bool (Qred (q + initialAF)) maxAF) eqn:E; cbn [negb].
  - apply Qle_bool_imp_le in E. eexists. split; [reflexivity|].
    rewrite Qred_correct in *. split; [|exact E].
    rewrite <- (Qplus_0_l initialAF) at 1. apply Qplus_le_compat; [|apply Qle_refl].
    apply Qle_trans with initialAF; assumption.
  - eexists. split; [reflexivity|]. split; [exact Hm | apply Qle_refl].
Qed.

Lemma psar_step_af_bounded hs ls initialAF maxAF i st :
  (0 <= initialAF)%Q -> (initialAF <= maxAF)%Q -> af_bounded initialAF maxAF st ->
  af_bounded initialAF maxAF (snd (Indicators.psar_step hs ls initialAF maxAF i st)).
Proof.
  intros H0 Hm [q [Eq Hq]]. unfold Indicators.psar_step.
  destruct (Indicators.psar_reversal _ _ _ _ _).
  { exists initialAF. split; [reflexivity|]. split; [apply Qle_refl | exact Hm]. }
  destruct (_ && _).
  { unfold af_bounded. cbn [snd Indicators.af]. rewrite Eq.
    apply af_increment_bounded; assumption. }
  destruct (_ && _).
  { unfold af_bounded. cbn [snd Indicators.af]. rewrite Eq.
    apply af_increment_bounded; assumption. }
  exists q. split; [exact Eq | exact Hq].
Qed.

Lemma psar_scan_af_bounded hs ls initialAF maxAF :
  (0 <= initialAF)%Q -> (initialAF <= maxAF)%Q ->
  forall fuel i st, af_bounded initialAF maxAF st ->
  forall st', In st' (snd (Indicators.psar_scan hs ls initialAF maxAF i fuel st)) ->
  af_bounded initialAF maxAF st'.
Proof.
  intros H0 Hm. induction fuel as [|fuel IH]; intros i st Hst st' Hin; [destruct Hin|].
  cbn [Indicators.psar_scan] in Hin.
  pose proof (psar_step_af_bounded hs ls initialAF maxAF i st H0 Hm Hst) as Hnext.
  destruct (Indicators.psar_step hs ls initialAF maxAF i st) as [v st1].
  destruct (Indicators.psar_scan hs ls initialAF maxAF (S i) fuel st1) as [vs sts] eqn:Escan.
  destruct Hin as [<- | Hin]; [exact Hnext|].
  apply (IH (S i) st1 Hnext). rewrite Escan. exact Hin.
Qed.

(** C10 (corrected): for [0 <= initialAF <= maxAF], every state of the
    [calculateParabolicSAR] scan has [initialAF <= af <= maxAF]. *)
Theorem psar_af_within_bounds hs ls cs initialAF maxAF :
  (0 <= initialAF)%Q -> (initialAF <= maxAF)%Q ->
  forall st, In st (Indicators.psar_states hs ls cs initialAF maxAF) ->
  af_bounded initialAF maxAF st.
Proof.
  intros H0 Hm st [<- | Hin].
  - exists initialAF. split; [reflexivity|]. split; [apply Qle_refl | exact Hm].
  - eapply psar_scan_af_bounded; [exact H0 | exact Hm | | exact Hin].
    exists initialAF. split; [reflexivity|]. split; [apply Qle_refl | exact Hm].
Qed.

(** C10, counterexample: with [initialAF = -0.02 <= maxAF = 0.2], the first
    extension of the extreme point of [psar_highs]/[psar_lows] brings the
    factor to [-0.04 < initialAF]. *)
Lemma psar_af_negative_step_escapes :
  (-0.02 <= 0.2)%Q /\
  exists st, In st (Indicators.psar_states psar_highs psar_lows psar_closes (-0.02) 0.2)
             /\ ~ af_bounded (-0.02) 0.2 st.
Proof.
  split; [vm_compute; discriminate|].
  exists (nth 1 (Indicators.psar_states psar_highs psar_lows psar_closes (-0.02) 0.2)
              psar_default).
  split; [apply nth_In; vm_compute; lia|].
  intros [q [Eq [Hq _]]]. vm_compute in Eq. injection Eq as <-.
  vm_compute in Hq. apply Hq. reflexivity.
Qed.

(** C4 (corrected): on a reversal, the new trend is the opposite one, the
    SAR resets to the current bar's low (new uptrend) or high (new
    downtrend), the extreme point to its high or low, and the acceleration
    factor to [initialAF]; the value pushed for the bar is the clamped SAR. *)
Theorem psar_reversal_resets hs ls initialAF maxAF i st :
  Indicators.psar_reversal hs ls i st (Indicators.psar_next hs ls i st) = true ->
  Indicators.psar_step hs ls initialAF maxAF i st =
    (Indicators.psar_next hs ls i st,
     {| Indicators.isUptrend := negb (Indicators.isUptrend st);
        Indicators.ep := if negb (Indicators.isUptrend st)
                         then js_get hs (Z.of_nat i) else js_get ls (Z.of_nat i);
        Indicators.sar := if negb (Indicators.isUptrend st)
                          then js_get ls (Z.of_nat i) else js_get hs (Z.of_nat i);
        Indicators.af := Fin initialAF |}).
Proof. intros H. unfold Indicators.psar_step. rewrite H. reflexivity. Qed.

(** C4, counterexample: the uptrend of [psar_highs]/[psar_lows] reverses at
    bar 2, where the SAR resets to that bar's high 9, not to the prior
    extreme point 12. *)
Lemma psar_reversal_not_prior_extreme :
  let st := nth 1 (Indicators.psar_states psar_highs psar_lows psar_closes 0.02 0.2)
                psar_default in
  Indicators.psar_reversal psar_highs psar_lows 2 st
    (Indicators.psar_next psar_highs psar_lows 2 st) = true /\
  num_eqb (Indicators.sar (snd (Indicators.psar_step psar_highs psar_lows 0.02 0.2 2 st)))
          (Indicators.ep st) = false.
Proof. vm_compute. split; reflexivity. Qed.

(** C3 (code_bug): the RSI denominator [avgLoss || 0.001] is never zero nor
    NaN, but [calculateADX] divides by the smoothed true range and by
    [+DI + -DI] without a guard: on a flat series the smoothed true range is
    0 at every position, 0/0 makes every ADX value NaN, while the guarded
    RSI stays a number (0) past its warm-up. *)
Theorem adx_unguarded_on_flat :
  (forall x, num_eqb (num_or x (Fin 0.001)) (Fin 0) = false /\
             is_nan (num_or x (Fin 0.001)) = false) /\
  num_list_eqb
    (let '(tr, _, _) := Indicators.true_range_and_dm flat30 flat30 flat30 in
     Indicators.calculateSmoothedAverage tr 14) (repeat (Fin 0) 16) = true /\
  num_list_eqb (Indicators.calculateADX flat30 flat30 flat30 14) (repeat NaN 30) = true /\
  num_list_eqb (skipn 14 (Indicators.calculateRSI flat30 14)) (repeat (Fin 0) 16) = true.
Proof.
  split.
  - intros [q | | |]; cbn [num_or]; try (split; reflexivity).
    destruct (Qeq_bool q 0) eqn:E; [split; reflexivity|].
    cbn [num_eqb is_nan]. rewrite E. split; reflexivity.
  - vm_compute. split; [reflexivity | split; reflexivity].
Qed.

(* ------------------------------------------------------------------ *)
(** ** Witnesses: the theorems' hypotheses hold on concrete inputs *)

Lemma predict_week_run_sees_day_run_witness :
  (30 <= length rising30)%nat /\
  match Forecast.predictStockPrices V8Sort.v8_sort_small rising30 with
  | inr r =>
      Forecast.arimaInspiredPrediction (Forecast.closes_of rising30) 1
        = ([Forecast.nextDayPrediction r],
           Forecast.closes_of rising30 ++ [Forecast.nextDayPrediction r]) /\
      Forecast.nextWeekPrediction r
        = js_get (fst (Forecast.arimaInspiredPrediction
                         (Forecast.closes_of rising30 ++ [Forecast.nextDayPrediction r]) 7)) 6 /\
      Forecast.nextWeekPrediction r = NaN
  | inl _ => False
  end.
Proof.
  split; [vm_compute; lia|].
  apply (predict_week_run_sees_day_run V8Sort.v8_sort_small rising30). vm_compute. lia.
Defined.

Lemma predict_actual_is_pushed_array_witness :
  (30 <= length rising30)%nat /\
  match Forecast.predictStockPrices V8Sort.v8_sort_small rising30 with
  | inr r =>
      length (Forecast.actual r) = (length rising30 + 8)%nat /\
      firstn (length rising30) (Forecast.actual r) = Forecast.closes_of rising30 /\
      skipn (length rising30 + 2) (Forecast.actual r) = repeat NaN 6
  | inl _ => False
  end.
Proof.
  split; [vm_compute; lia|].
  apply (predict_actual_is_pushed_array V8Sort.v8_sort_small rising30). vm_compute. lia.
Defined.

Lemma predict_trend_always_neutral_witness :
  (30 <= length rising30)%nat /\
  match Forecast.predictStockPrices V8Sort.v8_sort_small rising30 with
  | inr r => Forecast.trend r = Forecast.Neutral
  | inl _ => False
  end.
Proof.
  split; [vm_compute; lia|].
  apply (predict_trend_always_neutral V8Sort.v8_sort_small rising30). vm_compute. lia.
Defined.

Lemma predict_confidence_nan_witness :
  (30 <= length rising30)%nat /\
  match Forecast.predictStockPrices V8Sort.v8_sort_small rising30 with
  | inr r => Forecast.confidence r = NaN
  | inl _ => False
  end.
Proof.
  split; [vm_compute; lia|].
  apply (predict_confidence_nan V8Sort.v8_sort_small rising30). vm_compute. lia.
Defined.

Lemma sma_aligned_mean_witness :
  (0 < 3)%nat /\
  length (Indicators.calculateSMA (map Fin [1; 2; 3; 4; 5]) 3) = length [1; 2; 3; 4; 5] /\
  ((length [1; 2; 3; 4; 5] < 3)%nat ->
   forall x, In x (Indicators.calculateSMA (map Fin [1; 2; 3; 4; 5]) 3) -> x = NaN) /\
  (forall i, (i < length [1; 2; 3; 4; 5])%nat ->
   ((i < 3 - 1)%nat -> nth i (Indicators.calculateSMA (map Fin [1; 2; 3; 4; 5]) 3) NaN = NaN) /\
   ((3 - 1 <= i)%nat ->
    exists q, nth i (Indicators.calculateSMA (map Fin [1; 2; 3; 4; 5]) 3) NaN = Fin q /\
              q == arith_mean (firstn 3 (skipn (i + 1 - 3) [1; 2; 3; 4; 5])))).
Proof.
  split; [lia|].
  apply (sma_aligned_mean [1; 2; 3; 4; 5] 3). lia.
Defined.

Lemma psar_af_within_bounds_witness :
  (0 <= 0.02)%Q /\ (0.02 <= 0.2)%Q /\
  af_bounded 0.02 0.2
    (nth 2 (Indicators.psar_states psar_highs psar_lows psar_closes 0.02 0.2) psar_default).
Proof.
  split; [vm_compute; discriminate|]. split; [vm_compute; discriminate|].
  apply (psar_af_within_bounds psar_highs psar_lows psar_closes 0.02 0.2);
    [vm_compute; discriminate | vm_compute; discriminate |].
  apply nth_In. vm_compute. lia.
Defined.

Lemma psar_reversal_resets_witness :
  let st := nth 1 (Indicators.psar_states psar_highs psar_lows psar_closes 0.02 0.2)
                psar_default in
  Indicators.psar_reversal psar_highs psar_lows 2 st
    (Indicators.psar_next psar_highs psar_lows 2 st) = true /\
  Indicators.psar_step psar_highs psar_lows 0.02 0.2 2 st =
    (Indicators.psar_next psar_highs psar_lows 2 st,
     {| Indicators.isUptrend := negb (Indicators.isUptrend st);
        Indicators.ep := if negb (Indicators.isUptrend st)
                         then js_get psar_highs 2 else js_get psar_lows 2;
        Indicators.sar := if negb (Indicators.isUptrend st)
                          then js_get psar_lows 2 else js_get psar_highs 2;
        Indicators.af := Fin 0.02 |}).
Proof.
  intros st. split; [vm_compute; reflexivity|].
  apply (psar_reversal_resets psar_highs psar_lows 0.02 0.2 2 st).
  vm_compute. reflexivity.
Defined.

(* ------------------------------------------------------------------ *)
(** ** Further properties *)


(** ** Finite arithmetic *)

Lemma nat_num_nonzero (P : nat) : (0 < P)%nat ->
  ~ inject_Z (Z.of_nat P) == 0.
Proof. intros HP E. unfold Qeq, inject_Z in E. simpl in E. lia. Qed.

Lemma num_div_fin (a b : Q) : ~ b == 0 -> num_div (Fin a) (Fin b) = Fin (Qred (a / b)).
Proof.
  intros Hb. unfold num_div. destruct (Qeq_bool b 0) eqn:E; [|reflexivity].
  apply Qeq_bool_eq in E. contradiction.
Qed.

Lemma num_sub_fin (a b : Q) : num_sub (Fin a) (Fin b) = Fin (Qred (a + - b)).
Proof. reflexivity. Qed.

Lemma fin_add x y : is_fin x -> is_fin y -> is_fin (num_add x y).
Proof. intros [a ->] [b ->]. eexists. reflexivity. Qed.

Lemma fin_mul x y : is_fin x -> is_fin y -> is_fin (num_mul x y).
Proof. intros [a ->] [b ->]. eexists. reflexivity. Qed.

Lemma fin_sub x y : is_fin x -> is_fin y -> is_fin (num_sub x y).
Proof. intros [a ->] [b ->]. eexists. reflexivity. Qed.

Lemma fin_div_nat x P : (0 < P)%nat -> is_fin x -> is_fin (num_div x (nat_num P)).
Proof.
  intros HP [a ->]. unfold nat_num. rewrite num_div_fin by (apply nat_num_nonzero; exact HP).
  eexists. reflexivity.
Qed.

Lemma fin_not_nan x : is_fin x -> is_nan x = false.
Proof. intros [a ->]. reflexivity. Qed.

Lemma fin_fold_add (l : list num) (acc : num) :
  is_fin acc -> Forall is_fin l -> is_fin (fold_left num_add l acc).
Proof.
  revert acc. induction l as [|x l IH]; intros acc Ha Hl; simpl; [exact Ha|].
  inversion Hl; subst. apply IH; [apply fin_add|]; assumption.
Qed.

Lemma forall_firstn {A} (P : A -> Prop) n l : Forall P l -> Forall P (firstn n l).
Proof.
  intros H. rewrite <- (firstn_skipn n l) in H. apply Forall_app in H. tauto.
Qed.

Lemma forall_skipn {A} (P : A -> Prop) n l : Forall P l -> Forall P (skipn n l).
Proof.
  intros H. rewrite <- (firstn_skipn n l) in H. apply Forall_app in H. tauto.
Qed.

Lemma js_slice_prefix {A} (l : list A) (P : nat) :
  js_slice l 0 (Some (Z.of_nat P)) = firstn P l.
Proof.
  unfold js_slice, js_rel. simpl.
  replace (Z.of_nat P <? 0)%Z with false by (symmetry; apply Z.ltb_ge; lia).
  rewrite Nat2Z.id, Nat.sub_0_r.
  destruct (Nat.le_ge_cases P (length l)).
  - rewrite Nat.min_l by lia. reflexivity.
  - rewrite Nat.min_r by lia. rewrite firstn_all2 by lia. symmetry. apply firstn_all2. lia.
Qed.

Lemma js_get_nth (l : list num) (k : nat) : js_get l (Z.of_nat k) = nth k l NaN.
Proof.
  unfold js_get. replace (Z.of_nat k <? 0)%Z with false by (symmetry; apply Z.ltb_ge; lia).
  rewrite Nat2Z.id. reflexivity.
Qed.

Lemma forall_nth_fin (l : list num) k : Forall is_fin l -> (k < length l)%nat ->
  is_fin (nth k l NaN).
Proof. intros H Hk. rewrite Forall_forall in H. apply H, nth_In, Hk. Qed.

(** ** EMA *)

Section EMA.
Variables (data : list num) (P : nat) (m e0 : num).

Lemma ema_fold_inv (k : nat) : (1 <= P)%nat ->
  let st := fold_left (Indicators.ema_step data P m) (seq 0 k) (e0, []) in
  length (snd st) = k /\
  (forall i, (i < k)%nat -> (i < P - 1)%nat -> nth i (snd st) NaN = NaN) /\
  ((P <= k)%nat -> nth (P - 1) (snd st) NaN = e0) /\
  (forall i, (P <= i < k)%nat ->
     nth i (snd st) NaN =
       num_add (num_mul (js_get data (Z.of_nat i)) m)
               (num_mul (nth (i - 1) (snd st) NaN) (num_sub (Fin 1) m))) /\
  fst st = (if (k <=? P)%nat then e0 else nth (k - 1) (snd st) NaN).
Proof.
  intros HP. induction k as [|k IH].
  - cbv zeta. simpl. repeat split; intros; lia.
  - cbv zeta in *. rewrite seq_S, fold_left_app. cbn [fold_left Nat.add].
    destruct (fold_left (Indicators.ema_step data P m) (seq 0 k) (e0, [])) as [e l] eqn:Est.
    cbn [fst snd] in IH. destruct IH as [Hl [Hlow [Hseed [Hrec He]]]].
    unfold Indicators.ema_step.
    destruct (Z.of_nat k <? Z.of_nat P - 1)%Z eqn:E1.
    + apply Z.ltb_lt in E1. cbn [fst snd].
      rewrite length_app, Hl. cbn [length].
      split; [lia|]. split.
      { intros i Hi Hi2. destruct (Nat.eq_dec i k) as [->|Hne].
        - rewrite app_nth2 by lia. rewrite Hl, Nat.sub_diag. reflexivity.
        - rewrite app_nth1 by lia. apply Hlow; lia. }
      split; [intros; lia|]. split; [intros; lia|].
      replace (S k <=? P)%nat with true by (symmetry; apply Nat.leb_le; lia).
      rewrite He. replace (k <=? P)%nat with true by (symmetry; apply Nat.leb_le; lia).
      reflexivity.
    + apply Z.ltb_ge in E1.
      destruct (Z.of_nat k =? Z.of_nat P - 1)%Z eqn:E2.
      * apply Z.eqb_eq in E2. cbn [fst snd].
        assert (Hk : k = (P - 1)%nat) by lia.
        rewrite length_app, Hl. cbn [length].
        split; [lia|]. split.
        { intros i Hi Hi2. rewrite app_nth1 by lia. apply Hlow; lia. }
        split.
        { intros _. rewrite app_nth2 by lia. rewrite Hl, <- Hk, Nat.sub_diag.
          rewrite He. replace (k <=? P)%nat with true by (symmetry; apply Nat.leb_le; lia).
          reflexivity. }
        split; [intros; lia|].
        replace (S k <=? P)%nat with true by (symmetry; apply Nat.leb_le; lia).
        rewrite He. replace (k <=? P)%nat with true by (symmetry; apply Nat.leb_le; lia).
        reflexivity.
      * apply Z.eqb_neq in E2. cbn [fst snd].
        assert (Hk : (P <= k)%nat) by lia.
        rewrite length_app, Hl. cbn [length].
        split; [lia|]. split.
        { intros i Hi Hi2. rewrite app_nth1 by lia. apply Hlow; lia. }
        split.
        { intros _. rewrite app_nth1 by lia. apply Hseed. exact Hk. }
        split.
        { intros i Hi. destruct (Nat.eq_dec i k) as [->|Hne].
          - rewrite app_nth2 by lia. rewrite Hl, Nat.sub_diag. simpl.
            rewrite app_nth1 by lia. f_equal. f_equal.
            rewrite He. destruct (k <=? P)%nat eqn:E3.
            + apply Nat.leb_le in E3. assert (k = P) by lia. subst k.
              rewrite H. symmetry. apply Hseed. lia.
            + reflexivity.
          - rewrite app_nth1 by lia. rewrite app_nth1 by lia. apply Hrec. lia. }
        replace (S k <=? P)%nat with false by (symmetry; apply Nat.leb_gt; lia).
        rewrite app_nth2 by lia. rewrite Hl.
        replace (S k - 1 - k)%nat with 0%nat by lia. reflexivity.
Qed.

End EMA.



Lemma ema_spec (data : list num) (P : nat) : (1 <= P)%nat ->
  let out := Indicators.calculateEMA data P in
  let k := num_div (Fin 2) (num_add (nat_num P) (Fin 1)) in
  length out = length data /\
  (forall i, (i < length data)%nat -> (i < P - 1)%nat -> nth i out NaN = NaN) /\
  ((P <= length data)%nat ->
   nth (P - 1) out NaN = num_div (Indicators.js_sum (firstn P data)) (nat_num P)) /\
  (forall i, (P <= i < length data)%nat ->
   nth i out NaN = num_add (num_mul (nth i data NaN) k)
                           (num_mul (nth (i - 1) out NaN) (num_sub (Fin 1) k))).
Proof.
  intros HP. cbv zeta. unfold Indicators.calculateEMA.
  destruct (ema_fold_inv data P (num_div (Fin 2) (num_add (nat_num P) (Fin 1)))
             (num_div (Indicators.js_sum (js_slice data 0 (Some (Z.of_nat P)))) (nat_num P))
             (length data) HP) as [Hl [Hlow [Hseed [Hrec _]]]].
  split; [exact Hl|]. split; [exact Hlow|]. split.
  - intros H. rewrite Hseed by exact H. rewrite js_slice_prefix. reflexivity.
  - intros i Hi. rewrite Hrec by exact Hi. rewrite js_get_nth. reflexivity.
Qed.

Lemma ema_multiplier_fin (P : nat) :
  is_fin (num_div (Fin 2) (num_add (nat_num P) (Fin 1))).
Proof.
  unfold nat_num. cbn [num_add]. rewrite num_div_fin; [eexists; reflexivity|].
  rewrite Qred_correct. intros E. unfold Qeq in E. simpl in E. lia.
Qed.

Lemma ema_fin (data : list num) (P : nat) : (1 <= P)%nat -> Forall is_fin data ->
  forall i, (P - 1 <= i < length data)%nat ->
  is_fin (nth i (Indicators.calculateEMA data P) NaN).
Proof.
  intros HP Hd.
  destruct (ema_spec data P HP) as [_ [_ [Hseed Hrec]]]. cbv zeta in Hseed, Hrec.
  intros i Hi. remember (i - (P - 1))%nat as j eqn:Ej.
  revert i Hi Ej. induction j as [|j IH]; intros i Hi Ej.
  - replace i with (P - 1)%nat by lia. rewrite Hseed by lia.
    apply fin_div_nat; [lia|]. apply fin_fold_add; [eexists; reflexivity|].
    apply forall_firstn, Hd.
  - rewrite Hrec by lia.
    pose proof (ema_multiplier_fin P) as Hm.
    apply fin_add; apply fin_mul; try assumption.
    + apply forall_nth_fin; [exact Hd | lia].
    + apply (IH (i - 1)%nat); lia.
    + apply fin_sub; [eexists; reflexivity | exact Hm].
Qed.

Lemma ema_nan_iff (data : list num) (P : nat) : (1 <= P)%nat -> Forall is_fin data ->
  forall i, (i < length data)%nat ->
  is_nan (nth i (Indicators.calculateEMA data P) NaN) = (i <? P - 1)%nat.
Proof.
  intros HP Hd i Hi. destruct (i <? P - 1)%nat eqn:E.
  - apply Nat.ltb_lt in E. destruct (ema_spec data P HP) as [_ [Hlow _]].
    rewrite Hlow by assumption. reflexivity.
  - apply Nat.ltb_ge in E. apply fin_not_nan, ema_fin; [exact HP | exact Hd | lia].
Qed.

(** ** Array writes *)

Lemma js_set_nth (l : list num) (k : nat) (v : num) : (k < length l)%nat ->
  length (Indicators.js_set l (Z.of_nat k) v) = length l /\
  forall i, nth i (Indicators.js_set l (Z.of_nat k) v) NaN
            = if (i =? k)%nat then v else nth i l NaN.
Proof.
  intros Hk. unfold Indicators.js_set.
  replace (Z.of_nat k <? 0)%Z with false by (symmetry; apply Z.ltb_ge; lia).
  rewrite Nat2Z.id.
  replace (k <? length l)%nat with true by (symmetry; apply Nat.ltb_lt; exact Hk).
  split.
  - rewrite length_app, length_firstn. cbn [length]. rewrite length_skipn. lia.
  - intros i. destruct (Nat.lt_trichotomy i k) as [Hi|[Hi|Hi]].
    + rewrite app_nth1 by (rewrite length_firstn; lia).
      rewrite nth_firstn. replace (i <? k)%nat with true by (symmetry; apply Nat.ltb_lt; exact Hi).
      replace (i =? k)%nat with false by (symmetry; apply Nat.eqb_neq; lia). reflexivity.
    + subst i. rewrite app_nth2 by (rewrite length_firstn; lia).
      rewrite length_firstn. replace (k - Nat.min k (length l))%nat with 0%nat by lia.
      rewrite Nat.eqb_refl. reflexivity.
    + rewrite app_nth2 by (rewrite length_firstn; lia).
      rewrite length_firstn. replace (i - Nat.min k (length l))%nat with (S (i - S k)) by lia.
      cbn [nth]. rewrite nth_skipn.
      replace (i =? k)%nat with false by (symmetry; apply Nat.eqb_neq; lia).
      f_equal. lia.
Qed.

Lemma set_fold_nth (sg acc : list num) (s k : nat) :
  (k <= length sg)%nat -> (s + k <= length acc)%nat ->
  let r := fold_left (fun acc i => Indicators.js_set acc (Z.of_nat s + Z.of_nat i)
                                     (js_get sg (Z.of_nat i))) (seq 0 k) acc in
  length r = length acc /\
  forall i, nth i r NaN = if (s <=? i)%nat && (i <? s + k)%nat then nth (i - s) sg NaN
                          else nth i acc NaN.
Proof.
  intros Hk Hs. cbv zeta. induction k as [|k IH].
  - simpl. split; [reflexivity|]. intros i.
    destruct (Nat.leb_spec s i); destruct (Nat.ltb_spec i (s + 0)); cbn [andb];
      try reflexivity; lia.
  - destruct IH as [Hl Hn]; [lia | lia |].
    rewrite seq_S, fold_left_app. cbn [fold_left Nat.add].
    rewrite <- Nat2Z.inj_add.
    destruct (js_set_nth (fold_left (fun acc i => Indicators.js_set acc (Z.of_nat s + Z.of_nat i)
                                     (js_get sg (Z.of_nat i))) (seq 0 k) acc)
                         (s + k) (js_get sg (Z.of_nat k))) as [Hl' Hn']; [lia|].
    split; [rewrite Hl'; exact Hl|].
    intros i. rewrite Hn', Hn, js_get_nth.
    destruct (Nat.eqb_spec i (s + k)) as [->|Hne].
    + replace (s <=? s + k)%nat with true by (symmetry; apply Nat.leb_le; lia).
      replace (s + k <? s + S k)%nat with true by (symmetry; apply Nat.ltb_lt; lia).
      cbn [andb]. f_equal. lia.
    + destruct (Nat.leb_spec s i); cbn [andb]; [|reflexivity].
      destruct (Nat.ltb_spec i (s + k)); destruct (Nat.ltb_spec i (s + S k)); try reflexivity; lia.
Qed.

(** ** Filters and searches over a NaN prefix *)


Lemma filter_nan_prefix (A B : list num) :
  Forall (fun x => x = NaN) A -> Forall is_fin B ->
  filter (fun v => negb (is_nan v)) (A ++ B) = B.
Proof.
  intros HA HB. rewrite filter_app.
  replace (filter (fun v => negb (is_nan v)) A) with (@nil num).
  - simpl. apply forallb_filter_id. apply forallb_forall. intros x Hx.
    rewrite Forall_forall in HB. rewrite fin_not_nan by (apply HB; exact Hx). reflexivity.
  - induction HA as [|x A Hx HA IH]; [reflexivity|]. subst x. simpl. exact IH.
Qed.

Lemma find_index_nan_prefix (A B : list num) :
  Forall (fun x => x = NaN) A -> Forall is_fin B ->
  Indicators.find_index (fun v => negb (is_nan v)) (A ++ B)
  = match B with [] => (-1)%Z | _ => Z.of_nat (length A) end.
Proof.
  intros HA HB. induction HA as [|x A Hx HA IH].
  - destruct B as [|b B]; [reflexivity|]. inversion HB; subst.
    simpl. rewrite fin_not_nan by assumption. reflexivity.
  - subst x. simpl. rewrite IH. destruct B; [reflexivity|].
    replace (Z.of_nat (length A) <? 0)%Z with false by (symmetry; apply Z.ltb_ge; lia).
    lia.
Qed.


Lemma nan_or_diff_cases (a b : num) : nan_or_fin a -> nan_or_fin b ->
  nan_or_fin (Indicators.nan_or_diff a b) /\
  is_nan (Indicators.nan_or_diff a b) = is_nan a || is_nan b /\
  (is_nan a || is_nan b = false -> Indicators.nan_or_diff a b = num_sub a b).
Proof.
  intros [->|[x ->]] [->|[y ->]]; unfold Indicators.nan_or_diff; simpl;
    repeat split; try (left; reflexivity); try discriminate.
  right. eexists. reflexivity.
Qed.

Lemma nan_prefix_split (l : list num) (c : nat) :
  (forall i, (i < length l)%nat -> (i < c)%nat -> nth i l NaN = NaN) ->
  (forall i, (i < length l)%nat -> (c <= i)%nat -> is_fin (nth i l NaN)) ->
  Forall (fun x => x = NaN) (firstn c l) /\ Forall is_fin (skipn c l).
Proof.
  intros Hlo Hhi. split; apply Forall_forall; intros x Hx;
    destruct (In_nth _ _ NaN Hx) as [j [Hj Ej]]; subst x.
  - rewrite length_firstn in Hj. rewrite nth_firstn.
    replace (j <? c)%nat with true by (symmetry; apply Nat.ltb_lt; lia).
    apply Hlo; lia.
  - rewrite length_skipn in Hj. rewrite nth_skipn. apply Hhi; lia.
Qed.

Lemma ema_nan_or_fin (data : list num) (P : nat) : (1 <= P)%nat -> Forall is_fin data ->
  forall i, (i < length data)%nat ->
  nan_or_fin (nth i (Indicators.calculateEMA data P) NaN) /\
  is_nan (nth i (Indicators.calculateEMA data P) NaN) = (i <? P - 1)%nat.
Proof.
  intros HP Hd i Hi. split; [|apply ema_nan_iff; assumption].
  destruct (Nat.ltb_spec i (P - 1)).
  - left. destruct (ema_spec data P HP) as [_ [Hlow _]]. apply Hlow; assumption.
  - right. apply ema_fin; [exact HP | exact Hd | lia].
Qed.

Lemma macd_shape (data : list Q) (fastPeriod slowPeriod signalPeriod : nat) :
  (1 <= fastPeriod)%nat -> (1 <= slowPeriod)%nat -> (1 <= signalPeriod)%nat ->
  let M := Nat.max fastPeriod slowPeriod in
  let '(line, sig, hist) :=
    Indicators.calculateMACD (map Fin data) fastPeriod slowPeriod signalPeriod in
  length line = length data /\ length sig = length data /\ length hist = length data /\
  forall i, (i < length data)%nat ->
    is_nan (nth i line NaN) = (i <? M - 1)%nat /\
    is_nan (nth i sig NaN) = (i <? M + signalPeriod - 2)%nat /\
    is_nan (nth i hist NaN) = (i <? M + signalPeriod - 2)%nat /\
    ((M - 1 <= i)%nat ->
     nth i sig NaN
     = nth (i - (M - 1)) (Indicators.calculateEMA (skipn (M - 1) line) signalPeriod) NaN) /\
    ((M + signalPeriod - 2 <= i)%nat ->
     nth i hist NaN = num_sub (nth i line NaN) (nth i sig NaN)).
Proof.
  intros Hf Hs Hsp. cbv zeta. unfold Indicators.calculateMACD. cbv zeta.
  set (D := map Fin data).
  set (M := Nat.max fastPeriod slowPeriod).
  assert (HD : Forall is_fin D).
  { apply Forall_forall. intros x Hx. apply in_map_iff in Hx.
    destruct Hx as [q [<- _]]. eexists. reflexivity. }
  assert (HlenD : length D = length data) by apply length_map.
  remember (map (fun i => Indicators.nan_or_diff
                            (js_get (Indicators.calculateEMA D fastPeriod) (Z.of_nat i))
                            (js_get (Indicators.calculateEMA D slowPeriod) (Z.of_nat i)))
                (seq 0 (length D))) as line eqn:Hline.
  assert (Hll : length line = length data) by (rewrite Hline, length_map, length_seq; exact HlenD).
  assert (Hln : forall i, (i < length data)%nat ->
                nan_or_fin (nth i line NaN) /\ is_nan (nth i line NaN) = (i <? M - 1)%nat).
  { intros i Hi. rewrite Hline, nth_map_seq by lia. rewrite !js_get_nth.
    destruct (ema_nan_or_fin D fastPeriod Hf HD i) as [F1 F2]; [lia|].
    destruct (ema_nan_or_fin D slowPeriod Hs HD i) as [S1 S2]; [lia|].
    destruct (nan_or_diff_cases _ _ F1 S1) as [C1 [C2 _]].
    split; [exact C1|]. rewrite C2, F2, S2.
    unfold M. destruct (Nat.ltb_spec i (fastPeriod - 1)); destruct (Nat.ltb_spec i (slowPeriod - 1));
      destruct (Nat.ltb_spec i (Nat.max fastPeriod slowPeriod - 1)); cbn [orb]; try reflexivity; lia. }
  assert (Hsplit : Forall (fun x => x = NaN) (firstn (M - 1) line) /\ Forall is_fin (skipn (M - 1) line)).
  { apply nan_prefix_split.
    - intros i Hi Hlt. rewrite Hll in Hi. destruct (Hln i Hi) as [[E|E] E2]; [exact E|].
      apply fin_not_nan in E. rewrite E in E2. symmetry in E2. apply Nat.ltb_ge in E2. lia.
    - intros i Hi Hge. rewrite Hll in Hi. destruct (Hln i Hi) as [[E|E] E2]; [|exact E].
      rewrite E in E2. symmetry in E2. apply Nat.ltb_lt in E2. lia. }
  destruct Hsplit as [HA HB].
  assert (Hvalid : filter (fun v => negb (is_nan v)) line = skipn (M - 1) line).
  { rewrite <- (firstn_skipn (M - 1) line) at 1. apply filter_nan_prefix; assumption. }
  assert (Hstart : Indicators.find_index (fun v => negb (is_nan v)) line
                   = match skipn (M - 1) line with [] => (-1)%Z | _ => Z.of_nat (M - 1) end).
  { rewrite <- (firstn_skipn (M - 1) line) at 1. rewrite find_index_nan_prefix by assumption.
    destruct (skipn (M - 1) line) eqn:E; [reflexivity|].
    rewrite length_firstn. f_equal.
    assert (length (skipn (M - 1) line) <> 0%nat) by (rewrite E; discriminate).
    rewrite length_skipn in H. lia. }
  rewrite Hvalid, Hstart.
  set (V := skipn (M - 1) line) in *.
  assert (HlV : length V = (length data - (M - 1))%nat) by (unfold V; rewrite length_skipn; lia).
  destruct (ema_spec V signalPeriod Hsp) as [HlS _]. cbv zeta in HlS.
  set (S := Indicators.calculateEMA V signalPeriod) in *.
  (* the padded signal line, read by index *)
  assert (Hpad : exists pad,
            fold_left (fun acc i => Indicators.js_set acc
                          ((match V with [] => (-1)%Z | _ => Z.of_nat (M - 1) end
                            + Z.of_nat (length V) - Z.of_nat (length S)) + Z.of_nat i)
                          (js_get S (Z.of_nat i)))
                      (seq 0 (length S)) (repeat NaN (length D)) = pad /\
            length pad = length data /\
            forall i, (i < length data)%nat ->
              nth i pad NaN = if (M - 1 <=? i)%nat then nth (i - (M - 1)) S NaN else NaN).
  { destruct V as [|v V'] eqn:EV.
    - cbn [length] in HlS. rewrite HlS. simpl. eexists. split; [reflexivity|].
      rewrite repeat_length. split; [exact HlenD|].
      intros i Hi. cbn [length] in HlV.
      replace (M - 1 <=? i)%nat with false by (symmetry; apply Nat.leb_gt; lia).
      apply nth_repeat.
    - rewrite <- EV in *. rewrite HlS.
      replace (Z.of_nat (M - 1) + Z.of_nat (length V) - Z.of_nat (length V))%Z
        with (Z.of_nat (M - 1)) by lia.
      assert (HV1 : length V <> 0%nat) by (rewrite EV; discriminate).
      rewrite <- HlS.
      destruct (set_fold_nth S (repeat NaN (length D)) (M - 1) (length S)) as [Hpl Hpn];
        [lia | rewrite repeat_length; lia |].
      eexists. split; [reflexivity|]. split; [rewrite Hpl, repeat_length; exact HlenD|].
      intros i Hi. rewrite Hpn, nth_repeat.
      destruct (Nat.leb_spec (M - 1) i); cbn [andb]; [|reflexivity].
      replace (i <? M - 1 + length S)%nat with true by (symmetry; apply Nat.ltb_lt; lia).
      reflexivity. }
  destruct Hpad as [pad [Epad [Hpl Hpn]]]. rewrite Epad.
  assert (HS : forall i, (i < length data)%nat ->
            nan_or_fin (nth i pad NaN) /\
            is_nan (nth i pad NaN) = (i <? M + signalPeriod - 2)%nat).
  { intros i Hi. rewrite Hpn by exact Hi.
    destruct (Nat.leb_spec (M - 1) i).
    - destruct (ema_nan_or_fin V signalPeriod Hsp HB (i - (M - 1))) as [E1 E2]; [lia|].
      fold S in E1, E2. split; [exact E1|]. rewrite E2.
      destruct (Nat.ltb_spec (i - (M - 1)) (signalPeriod - 1));
        destruct (Nat.ltb_spec i (M + signalPeriod - 2)); try reflexivity; lia.
    - split; [left; reflexivity|]. symmetry. apply Nat.ltb_lt. lia. }
  split; [exact Hll|]. split; [exact Hpl|]. split; [rewrite length_map, length_seq; exact HlenD|].
  intros i Hi.
  destruct (Hln i Hi) as [L1 L2]. destruct (HS i Hi) as [P1 P2].
  assert (Hh : nth i (map (fun i => Indicators.nan_or_diff (js_get line (Z.of_nat i))
                                      (js_get pad (Z.of_nat i))) (seq 0 (length D))) NaN
               = Indicators.nan_or_diff (nth i line NaN) (nth i pad NaN)).
  { rewrite nth_map_seq by lia. rewrite !js_get_nth. reflexivity. }
  rewrite Hh. destruct (nan_or_diff_cases _ _ L1 P1) as [_ [H2 H3]].
  split; [exact L2|]. split; [exact P2|]. split.
  { rewrite H2, L2, P2.
    destruct (Nat.ltb_spec i (M - 1)); destruct (Nat.ltb_spec i (M + signalPeriod - 2));
      try reflexivity; lia. }
  split.
  { intros Hge. rewrite Hpn by exact Hi.
    replace (M - 1 <=? i)%nat with true by (symmetry; apply Nat.leb_le; exact Hge). reflexivity. }
  intros Hge. apply H3. rewrite L2, P2.
  replace (i <? M - 1)%nat with false by (symmetry; apply Nat.ltb_ge; lia).
  replace (i <? M + signalPeriod - 2)%nat with false by (symmetry; apply Nat.ltb_ge; lia).
  reflexivity.
Qed.

(** ** RSI *)


Lemma nonneg_add x y : fin_nonneg x -> fin_nonneg y -> fin_nonneg (num_add x y).
Proof.
  intros [a [-> Ha]] [b [-> Hb]]. eexists. split; [reflexivity|].
  rewrite Qred_correct. lra.
Qed.

Lemma nonneg_mul x y : fin_nonneg x -> fin_nonneg y -> fin_nonneg (num_mul x y).
Proof.
  intros [a [-> Ha]] [b [-> Hb]]. eexists. split; [reflexivity|].
  rewrite Qred_correct. nra.
Qed.

Lemma nonneg_div_nat x P : (0 < P)%nat -> fin_nonneg x -> fin_nonneg (num_div x (nat_num P)).
Proof.
  intros HP [a [-> Ha]]. unfold nat_num. rewrite num_div_fin by (apply nat_num_nonzero; exact HP).
  eexists. split; [reflexivity|]. rewrite Qred_correct.
  apply Qle_shift_div_l; [|lra].
  unfold Qlt, inject_Z. simpl. lia.
Qed.

Lemma nonneg_fold_add (l : list num) (acc : num) :
  fin_nonneg acc -> Forall fin_nonneg l -> fin_nonneg (fold_left num_add l acc).
Proof.
  revert acc. induction l as [|x l IH]; intros acc Ha Hl; simpl; [exact Ha|].
  inversion Hl; subst. apply IH; [apply nonneg_add|]; assumption.
Qed.

Lemma nonneg_mean (l : list num) P : (0 < P)%nat -> Forall fin_nonneg l ->
  fin_nonneg (num_div (Indicators.js_sum (js_slice l 0 (Some (Z.of_nat P)))) (nat_num P)).
Proof.
  intros HP Hl. apply nonneg_div_nat; [exact HP|].
  unfold Indicators.js_sum. apply nonneg_fold_add.
  - exists 0. split; [reflexivity | lra].
  - rewrite js_slice_prefix. apply forall_firstn. exact Hl.
Qed.

Lemma wilder_step_nonneg P prev x : (1 <= P)%nat ->
  fin_nonneg prev -> fin_nonneg x -> fin_nonneg (Indicators.wilder_step P prev x).
Proof.
  intros HP Hp Hx. unfold Indicators.wilder_step.
  apply nonneg_div_nat; [lia|]. apply nonneg_add; [|exact Hx].
  apply nonneg_mul; [exact Hp|].
  unfold nat_num. cbn [num_sub num_neg num_add]. eexists. split; [reflexivity|].
  rewrite Qred_correct. unfold Qle, Qplus, Qopp, inject_Z. simpl. lia.
Qed.

Lemma wilder_scan_nonneg P prev xs : (1 <= P)%nat ->
  fin_nonneg prev -> Forall fin_nonneg xs ->
  Forall fin_nonneg (Indicators.wilder_scan P prev xs).
Proof.
  revert prev. induction xs as [|x xs IH]; intros prev HP Hp Hx; simpl; [constructor|].
  inversion Hx; subst.
  assert (Hv : fin_nonneg (Indicators.wilder_step P prev x)) by (apply wilder_step_nonneg; assumption).
  constructor; [exact Hv|]. apply IH; assumption.
Qed.

Lemma wilder_scan_length P prev xs : length (Indicators.wilder_scan P prev xs) = length xs.
Proof. revert prev. induction xs; intros; simpl; [reflexivity|]. rewrite IHxs. reflexivity. Qed.

Lemma rsi_value_range g l : fin_nonneg g -> fin_nonneg l ->
  exists q, Indicators.rsi_value g l = Fin q /\ 0 <= q <= 100.
Proof.
  intros [a [-> Ha]] [b [-> Hb]]. unfold Indicators.rsi_value.
  assert (Hd : exists d, num_or (Fin b) (Fin 0.001) = Fin d /\ 0 < d).
  { unfold num_or. destruct (Qeq_bool b 0) eqn:E.
    - exists 0.001. split; [reflexivity | lra].
    - exists b. split; [reflexivity|]. apply Qeq_bool_neq in E. lra. }
  destruct Hd as [d [-> Hd]].
  rewrite num_div_fin by lra.
  assert (Hrs : 0 <= Qred (a / d)).
  { rewrite Qred_correct. apply Qle_shift_div_l; lra. }
  cbn [num_add]. rewrite num_div_fin by (rewrite Qred_correct; lra).
  cbn [num_sub num_neg num_add]. eexists. split; [reflexivity|].
  rewrite !Qred_correct. rewrite Qred_correct in Hrs.
  assert (Ht : 1 <= 1 + a / d) by lra.
  assert (H1 : 0 <= 100 / (1 + a / d)) by (apply Qle_shift_div_l; lra).
  assert (H2 : 100 / (1 + a / d) <= 100) by (apply Qle_shift_div_r; [lra | nra]).
  lra.
Qed.

Lemma changes_fin (data : list Q) :
  Forall is_fin (Indicators.changes (map Fin data)).
Proof.
  apply Forall_forall. intros x Hx. unfold Indicators.changes in Hx.
  apply in_map_iff in Hx. destruct Hx as [i [<- Hi]]. apply in_seq in Hi.
  rewrite length_map in Hi.
  replace (Z.of_nat i - 1)%Z with (Z.of_nat (i - 1)) by lia.
  rewrite !js_get_map_fin by lia. eexists. reflexivity.
Qed.

Lemma changes_length (data : list num) :
  length (Indicators.changes data) = (length data - 1)%nat.
Proof. unfold Indicators.changes. rewrite length_map, length_seq. reflexivity. Qed.

Lemma gains_nonneg (ch : list num) : Forall is_fin ch ->
  Forall fin_nonneg (map (fun c => if num_gt c (Fin 0) then c else Fin 0) ch).
Proof.
  intros H. apply Forall_map. eapply Forall_impl; [|exact H].
  intros c [q ->]. unfold num_gt, num_lt, Qltb. destruct (Qle_bool q 0) eqn:E; cbn [negb].
  - exists 0. split; [reflexivity | lra].
  - exists q. split; [reflexivity|].
    apply Bool.not_true_iff_false in E. rewrite Qle_bool_iff in E. lra.
Qed.

Lemma losses_nonneg (ch : list num) : Forall is_fin ch ->
  Forall fin_nonneg (map (fun c => if num_lt c (Fin 0) then num_abs c else Fin 0) ch).
Proof.
  intros H. apply Forall_map. eapply Forall_impl; [|exact H].
  intros c [q ->]. destruct (num_lt (Fin q) (Fin 0)).
  - exists (Qabs q). split; [reflexivity | apply Qabs_nonneg].
  - exists 0. split; [reflexivity | lra].
Qed.

Lemma combine_forall {A B} (P1 : A -> Prop) (P2 : B -> Prop) (l1 : list A) (l2 : list B) :
  Forall P1 l1 -> Forall P2 l2 -> forall a b, In (a, b) (combine l1 l2) -> P1 a /\ P2 b.
Proof.
  intros H1 H2 a b Hin. rewrite Forall_forall in H1, H2. split.
  - apply H1. eapply in_combine_l. exact Hin.
  - apply H2. eapply in_combine_r. exact Hin.
Qed.

Lemma rsi_shape (data : list Q) (P : nat) : (1 <= P)%nat ->
  let out := Indicators.calculateRSI (map Fin data) P in
  length out = Nat.max (length data) (P + 1) /\
  (forall i, (i < P)%nat -> nth i out NaN = NaN) /\
  (forall i, (P <= i < length out)%nat ->
     exists q, nth i out NaN = Fin q /\ 0 <= q <= 100).
Proof.
  intros HP. cbv zeta. unfold Indicators.calculateRSI. cbv zeta.
  set (ch := Indicators.changes (map Fin data)).
  assert (Hch : Forall is_fin ch) by apply changes_fin.
  assert (Hlch : length ch = (length data - 1)%nat) by (unfold ch; rewrite changes_length, length_map; reflexivity).
  pose proof (gains_nonneg ch Hch) as HG. pose proof (losses_nonneg ch Hch) as HL.
  set (gains := map (fun c => if num_gt c (Fin 0) then c else Fin 0) ch) in *.
  set (losses := map (fun c => if num_lt c (Fin 0) then num_abs c else Fin 0) ch) in *.
  pose proof (nonneg_mean gains P ltac:(lia) HG) as HaG.
  pose proof (nonneg_mean losses P ltac:(lia) HL) as HaL.
  set (aG := num_div (Indicators.js_sum (js_slice gains 0 (Some (Z.of_nat P)))) (nat_num P)) in *.
  set (aL := num_div (Indicators.js_sum (js_slice losses 0 (Some (Z.of_nat P)))) (nat_num P)) in *.
  assert (HsG := wilder_scan_nonneg P aG (skipn P gains) HP HaG (forall_skipn _ _ _ HG)).
  assert (HsL := wilder_scan_nonneg P aL (skipn P losses) HP HaL (forall_skipn _ _ _ HL)).
  set (rest := map (fun '(g, l) => Indicators.rsi_value g l)
                   (combine (Indicators.wilder_scan P aG (skipn P gains))
                            (Indicators.wilder_scan P aL (skipn P losses)))).
  assert (Hrest : length rest = (length data - 1 - P)%nat).
  { unfold rest. rewrite length_map, length_combine, !wilder_scan_length, !length_skipn.
    unfold gains, losses. rewrite !length_map, Hlch. lia. }
  split.
  { rewrite length_app, repeat_length. cbn [length]. rewrite Hrest. lia. }
  split.
  { intros i Hi. rewrite app_nth1 by (rewrite repeat_length; exact Hi). apply nth_repeat. }
  intros i Hi. rewrite app_nth2 by (rewrite repeat_length; lia). rewrite repeat_length.
  destruct (i - P)%nat as [|j] eqn:Ej; cbn [nth].
  - apply rsi_value_range; assumption.
  - rewrite length_app, repeat_length in Hi. cbn [length] in Hi.
    assert (Hj : (j < length rest)%nat) by lia.
    assert (Hin : In (nth j rest NaN) rest) by (apply nth_In; exact Hj).
    unfold rest at 2 in Hin. apply in_map_iff in Hin. destruct Hin as [[g l] [Eq Hgl]].
    rewrite <- Eq. destruct (combine_forall _ _ _ _ HsG HsL g l Hgl).
    apply rsi_value_range; assumption.
Qed.

(** ** ADX and Parabolic SAR shapes *)

Lemma smoothed_length (data : list num) P :
  length (Indicators.calculateSmoothedAverage data P) = S (length data - P).
Proof.
  unfold Indicators.calculateSmoothedAverage. cbn [length].
  rewrite wilder_scan_length, length_skipn. reflexivity.
Qed.

Lemma adx_shape (highs lows closes : list num) (P : nat) : (1 <= P)%nat ->
  let out := Indicators.calculateADX highs lows closes P in
  length out = Nat.max (length closes) (2 * P) /\
  forall i, (i < 2 * P - 1)%nat -> nth i out NaN = NaN.
Proof.
  intros HP. cbv zeta. unfold Indicators.calculateADX, Indicators.true_range_and_dm.
  cbv zeta.
  split.
  - rewrite length_app, repeat_length. cbn [length].
    rewrite wilder_scan_length, length_skipn, length_map, length_seq, length_map, length_seq.
    rewrite smoothed_length, length_map, length_seq. lia.
  - intros i Hi. rewrite app_nth1 by (rewrite repeat_length; lia). apply nth_repeat.
Qed.

Lemma psar_scan_length hs ls iaf maf : forall fuel i st,
  length (fst (Indicators.psar_scan hs ls iaf maf i fuel st)) = fuel /\
  length (snd (Indicators.psar_scan hs ls iaf maf i fuel st)) = fuel.
Proof.
  induction fuel as [|f IH]; intros i st; simpl; [split; reflexivity|].
  destruct (Indicators.psar_step hs ls iaf maf i st) as [v st'].
  specialize (IH (S i) st').
  destruct (Indicators.psar_scan hs ls iaf maf (S i) f st') as [vs sts].
  simpl in *. destruct IH as [-> ->]. split; reflexivity.
Qed.

Lemma psar_shape (highs lows closes : list num) (initialAF maxAF : Q) :
  let out := Indicators.calculateParabolicSAR highs lows closes initialAF maxAF in
  length out = Nat.max 1 (length closes) /\ nth 0 out NaN = NaN.
Proof.
  cbv zeta. unfold Indicators.calculateParabolicSAR. split; [|reflexivity].
  cbn [length]. rewrite (proj1 (psar_scan_length _ _ _ _ _ _ _)). lia.
Qed.


Lemma math_min_below x b : below b (math_min x (Fin b)).
Proof.
  destruct x as [a| | |]; unfold math_min; simpl.
  - unfold Qltb. destruct (Qle_bool a b) eqn:E; cbn [negb].
    + right. right. exists a. split; [reflexivity|]. apply Qle_bool_iff. exact E.
    + right. right. exists b. split; [reflexivity | lra].
  - left. reflexivity.
  - right. right. exists b. split; [reflexivity | lra].
  - right. left. reflexivity.
Qed.

Lemma math_min_below_mono s y b : below b s -> below b (math_min s y).
Proof.
  intros [->|[->|[r [-> Hr]]]].
  - left. reflexivity.
  - destruct y; unfold math_min; simpl; try (right; left; reflexivity); left; reflexivity.
  - destruct y as [q| | |]; unfold math_min; simpl.
    + unfold Qltb. destruct (Qle_bool r q) eqn:E; cbn [negb].
      * right. right. exists r. split; [reflexivity | exact Hr].
      * right. right. exists q. split; [reflexivity|].
        apply Bool.not_true_iff_false in E. rewrite Qle_bool_iff in E. lra.
    + left. reflexivity.
    + right. right. exists r. split; [reflexivity | exact Hr].
    + right. left. reflexivity.
Qed.

Lemma below_not_lt (q b : Q) s : b <= q -> below b s -> num_lt (Fin q) s = false.
Proof.
  intros Hq [->|[->|[r [-> Hr]]]]; try reflexivity.
  simpl. unfold Qltb. apply negb_false_iff, Qle_bool_iff. lra.
Qed.

Section RisingLows.
Variables (highs : list num) (lows : list Q) (initialAF maxAF : Q).
Hypothesis rising : forall i, (S i < length lows)%nat -> nth i lows 0 <= nth (S i) lows 0.

Lemma rising_no_reversal (i : nat) (st : Indicators.psar_state) :
  (1 <= i)%nat -> Indicators.isUptrend st = true ->
  Indicators.psar_reversal highs (map Fin lows) i st
                           (Indicators.psar_next highs (map Fin lows) i st) = false.
Proof.
  intros Hi Hup. unfold Indicators.psar_reversal. rewrite Hup. cbn [negb andb].
  rewrite orb_false_r.
  destruct (Nat.ltb_spec i (length lows)) as [Hlt|Hge].
  - rewrite js_get_map_fin by exact Hlt.
    apply (below_not_lt _ (nth (i - 1) lows 0)).
    + replace i with (S (i - 1)) at 2 by lia. apply rising. lia.
    + unfold Indicators.psar_next. rewrite Hup.
      replace (Z.of_nat i - 1)%Z with (Z.of_nat (i - 1)) by lia.
      rewrite js_get_map_fin by lia.
      destruct (2 <=? i)%nat; [apply math_min_below_mono|]; apply math_min_below.
  - rewrite js_get_out by (rewrite length_map; lia). reflexivity.
Qed.

Lemma rising_step_up (i : nat) (st : Indicators.psar_state) :
  (1 <= i)%nat -> Indicators.isUptrend st = true ->
  Indicators.isUptrend (snd (Indicators.psar_step highs (map Fin lows) initialAF maxAF i st)) = true.
Proof.
  intros Hi Hup. unfold Indicators.psar_step. cbv zeta.
  rewrite rising_no_reversal by assumption.
  destruct (Indicators.isUptrend st && _); [exact Hup|].
  destruct (negb (Indicators.isUptrend st) && _); exact Hup.
Qed.

Lemma rising_scan_up : forall fuel i st, (1 <= i)%nat -> Indicators.isUptrend st = true ->
  Forall (fun st => Indicators.isUptrend st = true)
         (snd (Indicators.psar_scan highs (map Fin lows) initialAF maxAF i fuel st)).
Proof.
  induction fuel as [|f IH]; intros i st Hi Hup; simpl; [constructor|].
  pose proof (rising_step_up i st Hi Hup) as Hs.
  destruct (Indicators.psar_step highs (map Fin lows) initialAF maxAF i st) as [v st'].
  specialize (IH (S i) st' ltac:(lia) Hs).
  destruct (Indicators.psar_scan highs (map Fin lows) initialAF maxAF (S i) f st') as [vs sts].
  simpl in *. constructor; assumption.
Qed.

End RisingLows.

(** X11: If the lows never decrease and the scan of [calculateParabolicSAR]
    starts in an uptrend, then every state of the scan is in an uptrend: a
    reversal never happens. *)
Theorem psar_rising_lows_never_reverse (highs closes : list num) (lows : list Q)
  (initialAF maxAF : Q) :
  (forall i, (S i < length lows)%nat -> nth i lows 0 <= nth (S i) lows 0) ->
  Indicators.isUptrend (Indicators.psar_init highs (map Fin lows) closes initialAF) = true ->
  forall st, In st (Indicators.psar_states highs (map Fin lows) closes initialAF maxAF) ->
  Indicators.isUptrend st = true.
Proof.
  intros Hr H0 st Hst. unfold Indicators.psar_states in Hst. cbv zeta in Hst.
  destruct Hst as [<-|Hst]; [exact H0|].
  pose proof (rising_scan_up highs lows initialAF maxAF Hr (length closes - 1) 1 _ (le_n 1) H0) as HF.
  rewrite Forall_forall in HF. apply HF. exact Hst.
Qed.

(** ** Linear regression on affine data *)

Lemma approx_fin q : approx (Fin q) q.
Proof. exists q. split; reflexivity. Qed.

Lemma approx_compat x a b : approx x a -> a == b -> approx x b.
Proof. intros [r [-> H]] E. exists r. split; [reflexivity|]. rewrite H. exact E. Qed.

Lemma approx_add x y a b : approx x a -> approx y b -> approx (num_add x y) (a + b).
Proof.
  intros [r [-> Hr]] [s [-> Hs]]. eexists. split; [reflexivity|].
  rewrite Qred_correct, Hr, Hs. reflexivity.
Qed.

Lemma approx_mul x y a b : approx x a -> approx y b -> approx (num_mul x y) (a * b).
Proof.
  intros [r [-> Hr]] [s [-> Hs]]. eexists. split; [reflexivity|].
  rewrite Qred_correct, Hr, Hs. reflexivity.
Qed.

Lemma approx_sub x y a b : approx x a -> approx y b -> approx (num_sub x y) (a - b).
Proof.
  intros [r [-> Hr]] [s [-> Hs]]. eexists. split; [reflexivity|].
  rewrite Qred_correct, Hr, Hs. reflexivity.
Qed.

Lemma approx_div x y a b : ~ b == 0 -> approx x a -> approx y b -> approx (num_div x y) (a / b).
Proof.
  intros Hb [r [-> Hr]] [s [-> Hs]]. rewrite num_div_fin by (rewrite Hs; exact Hb).
  eexists. split; [reflexivity|]. rewrite Qred_correct, Hr, Hs. reflexivity.
Qed.

Lemma approx_nat n : approx (nat_num n) (inject_Z (Z.of_nat n)).
Proof. apply approx_fin. Qed.

Lemma inject_succ (k : nat) : inject_Z (Z.of_nat (S k)) == inject_Z (Z.of_nat k) + 1.
Proof. rewrite Nat2Z.inj_succ, <- Z.add_1_r, inject_Z_plus. reflexivity. Qed.


Lemma positions_nth (n i : nat) : (i < n)%nat ->
  js_get (Forecast.positions n) (Z.of_nat i) = nat_num (i + 1).
Proof.
  intros Hi. rewrite js_get_nth. unfold Forecast.positions. rewrite nth_map_seq by exact Hi. reflexivity.
Qed.

Lemma positions_length n : length (Forecast.positions n) = n.
Proof. unfold Forecast.positions. rewrite length_map, length_seq. reflexivity. Qed.

Section Affine.
Variables (a b : Q) (n : nat) (ys : list num).
Hypothesis ys_affine : forall j, (j < n)%nat ->
  approx (js_get ys (Z.of_nat j)) (a * inject_Z (Z.of_nat (j + 1)) + b).


Lemma linreg_fold (k : nat) : (k <= n)%nat ->
  linreg_inv a b k
    (fold_left
       (fun '(sx, sy, sxy, sxx) i =>
          let x := js_get (Forecast.positions n) (Z.of_nat i) in
          let y := js_get ys (Z.of_nat i) in
          (num_add sx x, num_add sy y, num_add sxy (num_mul x y),
           num_add sxx (num_mul x x)))
       (seq 0 k) (Fin 0, Fin 0, Fin 0, Fin 0)).
Proof.
  induction k as [|k IH]; intros Hk.
  - simpl. unfold sum1, sum2. repeat split; apply approx_compat with (a := 0);
      try apply approx_fin; simpl; field.
  - rewrite seq_S, fold_left_app. cbn [fold_left Nat.add].
    specialize (IH ltac:(lia)).
    destruct (fold_left _ (seq 0 k) _) as [[[sx sy] sxy] sxx].
    unfold linreg_inv in *. cbv zeta in *. destruct IH as [H1 [H2 [H3 H4]]].
    rewrite positions_nth by lia.
    pose proof (ys_affine k ltac:(lia)) as Hy.
    pose proof (approx_nat (k + 1)) as Hx.
    replace (k + 1)%nat with (S k) in * by lia.
    set (K := inject_Z (Z.of_nat k)) in *.
    assert (HS : inject_Z (Z.of_nat (S k)) == K + 1) by apply inject_succ.
    unfold sum1, sum2 in *.
    repeat split.
    + eapply approx_compat; [apply approx_add; [exact H1 | exact Hx]|].
      rewrite HS. field.
    + eapply approx_compat; [apply approx_add; [exact H2 | exact Hy]|].
      rewrite HS. field.
    + eapply approx_compat; [apply approx_add; [exact H3 | apply approx_mul; [exact Hx | exact Hy]]|].
      rewrite HS. field.
    + eapply approx_compat; [apply approx_add; [exact H4 | apply approx_mul; exact Hx]|].
      rewrite HS. field.
Qed.

Lemma linreg_affine (p : Q) : (2 <= n)%nat ->
  approx (Forecast.linearRegression (Forecast.positions n) ys (Fin p)) (a * p + b).
Proof.
  intros Hn. unfold Forecast.linearRegression. rewrite positions_length.
  pose proof (linreg_fold n (le_n n)) as H.
  destruct (fold_left _ (seq 0 n) _) as [[[sx sy] sxy] sxx].
  unfold linreg_inv in H. cbv zeta in H. destruct H as [H1 [H2 [H3 H4]]].
  set (N := inject_Z (Z.of_nat n)) in *.
  assert (HN : 2 <= N).
  { unfold N, Qle, inject_Z. cbn [Qnum Qden]. clear -Hn. lia. }
  assert (HD : ~ N * sum2 N - sum1 N * sum1 N == 0).
  { unfold sum1, sum2. intros E.
    assert (E' : N * N * (N * N - 1) / 12 == 0) by (rewrite <- E; field).
    assert (Hpos : 0 < N * N * (N * N - 1) / 12).
    { apply Qlt_shift_div_l; [lra|]. assert (HNN : 4 <= N * N) by nra. nra. }
    lra. }
  assert (HN0 : ~ N == 0) by lra.
  assert (Hslope : approx
     (num_div (num_sub (num_mul (nat_num n) sxy) (num_mul sx sy))
              (num_sub (num_mul (nat_num n) sxx) (num_mul sx sx))) a).
  { eapply approx_compat.
    - apply approx_div; [exact HD| |].
      + apply approx_sub; apply approx_mul; try eassumption. apply approx_nat.
      + apply approx_sub; apply approx_mul; try eassumption. apply approx_nat.
    - change (inject_Z (Z.of_nat n)) with N. revert HD.
      generalize (sum1 N) (sum2 N). intros s1 s2 HD'.
      field. exact HD'. }
  eapply approx_compat.
  - apply approx_add.
    + apply approx_mul; [exact Hslope | apply approx_fin].
    + apply approx_div; [exact HN0| |apply approx_nat].
      apply approx_sub; [exact H2|]. apply approx_mul; [exact Hslope | exact H1].
  - field. exact HN0.
Qed.

End Affine.

(** ** Forecasts of a linear price series *)

Lemma js_get_slice (l : list num) (s e m : nat) :
  (s <= e <= length l)%nat -> (m < e - s)%nat ->
  js_get (js_slice l (Z.of_nat s) (Some (Z.of_nat e))) (Z.of_nat m) = nth (s + m) l NaN.
Proof.
  intros He Hm. rewrite js_get_nth. unfold js_slice, js_rel.
  replace (Z.of_nat s <? 0)%Z with false by (symmetry; apply Z.ltb_ge; lia).
  replace (Z.of_nat e <? 0)%Z with false by (symmetry; apply Z.ltb_ge; lia).
  rewrite !Nat2Z.id. rewrite Nat.min_l by lia. rewrite Nat.min_l by lia.
  rewrite nth_firstn. replace (m <? e - s)%nat with true by (symmetry; apply Nat.ltb_lt; exact Hm).
  apply nth_skipn.
Qed.

Lemma nth_map_seq_from {B} (f : nat -> B) (s n i : nat) (dd : B) : (i < n)%nat ->
  nth i (map f (seq s n)) dd = f (s + i)%nat.
Proof.
  intros Hi. rewrite nth_indep with (d' := f 0%nat) by (rewrite length_map, length_seq; lia).
  rewrite map_nth, seq_nth by lia. reflexivity.
Qed.

Lemma inject_nat_add (x y : nat) :
  inject_Z (Z.of_nat (x + y)) == inject_Z (Z.of_nat x) + inject_Z (Z.of_nat y).
Proof. rewrite Nat2Z.inj_add, inject_Z_plus. reflexivity. Qed.

Ltac nat_q := rewrite ?inject_nat_add; cbn [Z.of_nat Pos.of_succ_nat Pos.succ]; unfold inject_Z.

Section Linear.
Variables (c0 d : Q) (qs : list Q).
Hypothesis linear : forall k, (k < length qs)%nat ->
  nth k qs 0 == c0 + d * inject_Z (Z.of_nat k).

Lemma linear_get (k : nat) : (k < length qs)%nat ->
  approx (js_get (map Fin qs) (Z.of_nat k)) (c0 + d * inject_Z (Z.of_nat k)).
Proof.
  intros Hk. rewrite js_get_map_fin by exact Hk. exists (nth k qs 0). split; [reflexivity|].
  apply linear, Hk.
Qed.

Lemma backfit_linear (j : nat) : (j < length qs - Forecast.trainingWindow)%nat ->
  approx (nth j (Forecast.backfit (map Fin qs)) NaN)
         (c0 + d * inject_Z (Z.of_nat (j + Forecast.trainingWindow))).
Proof.
  intros Hj. unfold Forecast.backfit. rewrite length_map.
  rewrite nth_map_seq_from by exact Hj. cbv zeta.
  unfold Forecast.trainingWindow in *.
  replace (20 + j - 20)%nat with j by lia.
  eapply approx_compat.
  - apply (linreg_affine d (c0 + d * (inject_Z (Z.of_nat j) - 1))); [|lia].
    intros m Hm.
    rewrite js_get_slice by (rewrite ?length_map; lia).
    rewrite <- js_get_nth.
    eapply approx_compat; [apply linear_get; lia|].
    nat_q. ring.
  - nat_q. ring.
Qed.

Lemma arima_one_linear : (6 <= length qs)%nat ->
  exists v, Forecast.arimaInspiredPrediction (map Fin qs) 1 = ([v], map Fin qs ++ [v]) /\
            approx v (c0 + d * inject_Z (Z.of_nat (length qs))).
Proof.
  intros Hn. unfold Forecast.arimaInspiredPrediction. cbn [Forecast.arima_loop].
  eexists. split; [reflexivity|].
  set (D := Forecast.differences (map Fin qs)).
  assert (HlD : length D = (length qs - 1)%nat)
    by (unfold D, Forecast.differences; rewrite length_map, length_seq, length_map; reflexivity).
  rewrite HlD.
  replace (Z.of_nat (length qs - 1) - Z.of_nat Forecast.window)%Z
    with (Z.of_nat (length qs - 6)) by (unfold Forecast.window; lia).
  assert (Hy : forall m, (m < Forecast.window)%nat ->
            approx (js_get (js_slice D (Z.of_nat (length qs - 6)) None) (Z.of_nat m))
                   (0 * inject_Z (Z.of_nat (m + 1)) + d)).
  { intros m Hm. unfold Forecast.window in Hm.
    assert (E : js_slice D (Z.of_nat (length qs - 6)) None
                = js_slice D (Z.of_nat (length qs - 6)) (Some (Z.of_nat (length D)))).
    { unfold js_slice, js_rel.
      replace (Z.of_nat (length D) <? 0)%Z with false by (symmetry; apply Z.ltb_ge; lia).
      rewrite (Nat2Z.id (length D)), Nat.min_id. reflexivity. }
    rewrite E, js_get_slice by lia. rewrite <- js_get_nth.
    unfold D, Forecast.differences. rewrite js_get_nth.
    rewrite nth_map_seq_from by (rewrite length_map; lia).
    replace (Z.of_nat (1 + (length qs - 6 + m)) - 1)%Z with (Z.of_nat (length qs - 6 + m)) by lia.
    eapply approx_compat; [apply approx_sub; apply linear_get; rewrite ?length_map; lia|].
    nat_q. ring. }
  pose proof (linreg_affine 0 d Forecast.window _ Hy
                (inject_Z (Z.of_nat (Forecast.window + 1))) ltac:(unfold Forecast.window; lia)) as HL.
  eapply approx_compat.
  - apply approx_add; [|exact HL].
    replace (Z.of_nat (length (map Fin qs)) - 1 + Z.of_nat 0)%Z with (Z.of_nat (length qs - 1))
      by (rewrite length_map; lia).
    apply linear_get. lia.
  - rewrite Nat2Z.inj_sub by lia. unfold Z.sub. rewrite inject_Z_plus. simpl. ring.
Qed.

End Linear.

Lemma closes_of_map bars :
  Forecast.closes_of bars = map Fin (map Forecast.close bars).
Proof. unfold Forecast.closes_of. rewrite map_map. reflexivity. Qed.

(** X22: [predictStockPrices] on at least 30 bars whose closes lie on a line
    [c0 + d * k] predicts the next point of the line for the next day. Every
    backfitted prediction from index 20 on is the line's value at its index. *)
Theorem predict_linear_series sort_by bars (c0 d : Q) :
  (30 <= length bars)%nat ->
  (forall k, (k < length bars)%nat ->
     Forecast.close (nth k bars (bar_at 0)) == c0 + d * inject_Z (Z.of_nat k)) ->
  exists r, Forecast.predictStockPrices sort_by bars = inr r /\
    approx (Forecast.nextDayPrediction r) (c0 + d * inject_Z (Z.of_nat (length bars))) /\
    forall i, (20 <= i < length bars)%nat ->
      exists v, nth i (Forecast.predicted r) None = Some v /\
                approx v (c0 + d * inject_Z (Z.of_nat i)).
Proof.
  intros Hn Hlin.
  set (qs := map Forecast.close bars).
  assert (Hq : forall k, (k < length qs)%nat -> nth k qs 0 == c0 + d * inject_Z (Z.of_nat k)).
  { intros k Hk. unfold qs in *. rewrite length_map in Hk.
    change 0 with (Forecast.close (bar_at 0)). rewrite map_nth. apply Hlin, Hk. }
  assert (Hlq : length qs = length bars) by apply length_map.
  destruct (predict_shape sort_by bars Hn) as [p1 [q0 [E1 [_ Hr]]]].
  destruct (arima_one_linear c0 d qs Hq ltac:(lia)) as [v [Ev Hv]].
  rewrite closes_of_map in E1. fold qs in E1. rewrite Ev in E1.
  injection E1 as <- _.
  eexists. split; [exact Hr|]. cbn [Forecast.nextDayPrediction Forecast.predicted].
  split; [rewrite <- Hlq; exact Hv|].
  intros i Hi. rewrite app_nth2 by (rewrite repeat_length; unfold Forecast.trainingWindow; lia).
  rewrite repeat_length.
  rewrite closes_of_map. fold qs.
  assert (Hj : (i - Forecast.trainingWindow < length (Forecast.backfit (map Fin qs)))%nat)
    by (rewrite backfit_length, length_map; unfold Forecast.trainingWindow; lia).
  rewrite nth_indep with (d' := Some NaN) by (rewrite length_map; exact Hj).
  rewrite map_nth. eexists. split; [reflexivity|].
  eapply approx_compat.
  - apply backfit_linear; [exact Hq|]. rewrite backfit_length, length_map in Hj. exact Hj.
  - replace (i - Forecast.trainingWindow + Forecast.trainingWindow)%nat with i
      by (unfold Forecast.trainingWindow; lia). reflexivity.
Qed.

(** ** Confidence and trend *)

Lemma Qltb_iff (a b : Q) : Qltb a b = true <-> a < b.
Proof.
  unfold Qltb. rewrite negb_true_iff. split.
  - intros H. apply Bool.not_true_iff_false in H. rewrite Qle_bool_iff in H. lra.
  - intros H. apply Bool.not_true_iff_false. rewrite Qle_bool_iff. lra.
Qed.

Lemma Qltb_ext (a b c d : Q) : (a < b <-> c < d) -> Qltb a b = Qltb c d.
Proof.
  intros H. destruct (Qltb c d) eqn:E.
  - apply Qltb_iff. apply H. apply Qltb_iff. exact E.
  - destruct (Qltb a b) eqn:E'; [|reflexivity].
    apply Qltb_iff, H, Qltb_iff in E'. congruence.
Qed.




Lemma nth_skipn_fin (data : list Q) (k m : nat) : (k + m < length data)%nat ->
  js_get (skipn k (map Fin data)) (Z.of_nat m) = Fin (nth (k + m) data 0).
Proof.
  intros H. rewrite js_get_nth, nth_skipn, <- js_get_nth. apply js_get_map_fin. exact H.
Qed.

(** X20: [determineTrend] on a non-empty list with a positive start price
    compares the last price with the price ten places from the end (the
    first one if the list is shorter). It is bullish above +3%, bearish
    below -3% and neutral otherwise. *)
Theorem determineTrend_window (data : list Q) :
  let n := length data in
  let startPrice := nth (n - Nat.min n 10) data 0 in
  let endPrice := nth (n - 1) data 0 in
  (1 <= n)%nat -> 0 < startPrice ->
  Forecast.determineTrend (map Fin data)
  = if Qltb (103 * startPrice) (100 * endPrice) then Forecast.Bullish
    else if Qltb (100 * endPrice) (97 * startPrice) then Forecast.Bearish
    else Forecast.Neutral.
Proof.
  cbv zeta. intros Hn Hs. unfold Forecast.determineTrend. cbv zeta.
  set (n := length data) in *.
  set (k := (n - Nat.min n 10)%nat) in *.
  assert (Hrec : js_slice (map Fin data) (Z.opp 10) None = skipn k (map Fin data)).
  { unfold js_slice, js_rel. rewrite length_map. fold n.
    replace (Z.opp 10 <? 0)%Z with true by reflexivity.
    replace (Z.to_nat (Z.max 0 (Z.of_nat n + Z.opp 10))) with k by (unfold k; lia).
    apply firstn_all2. rewrite length_skipn, length_map. lia. }
  rewrite Hrec.
  rewrite length_skipn, length_map. fold n.
  replace (Z.of_nat (n - k) - 1)%Z with (Z.of_nat (n - k - 1)) by (unfold k; lia).
  change 0%Z with (Z.of_nat 0).
  rewrite !nth_skipn_fin by (unfold k, n in *; lia).
  replace (k + 0)%nat with k by lia.
  replace (k + (n - k - 1))%nat with (n - 1)%nat by (unfold k; lia).
  set (s := nth k data 0) in *. set (e := nth (n - 1) data 0).
  cbn [num_sub num_neg num_add].
  rewrite num_div_fin by lra. cbn [num_mul num_gt num_lt].
  assert (Hpc : Qred (Qred (Qred (e + - s) / s) * 100) == (e - s) / s * 100)
    by (rewrite !Qred_correct; reflexivity).
  rewrite (Qltb_ext 3 _ (103 * s) (100 * e)).
  2:{ rewrite Hpc. rewrite <- (Qmult_lt_r _ _ s Hs).
      setoid_replace ((e - s) / s * 100 * s) with ((e - s) * 100) by (field; lra).
      split; intros; lra. }
  rewrite (Qltb_ext _ (-3) (100 * e) (97 * s)).
  2:{ rewrite Hpc. rewrite <- (Qmult_lt_r _ _ s Hs).
      setoid_replace ((e - s) / s * 100 * s) with ((e - s) * 100) by (field; lra).
      split; intros; lra. }
  reflexivity.
Qed.

(** ** Constant series *)

Lemma firstn_repeat_le {A} (x : A) (k n : nat) : (k <= n)%nat ->
  firstn k (repeat x n) = repeat x k.
Proof.
  revert n. induction k as [|k IH]; intros n Hk; [reflexivity|].
  destruct n as [|n]; [lia|]. simpl. rewrite IH by lia. reflexivity.
Qed.

Lemma approx_sum_repeat (x : num) (c : Q) (k : nat) (acc : num) (a : Q) :
  approx x c -> approx acc a ->
  approx (fold_left num_add (repeat x k) acc) (a + inject_Z (Z.of_nat k) * c).
Proof.
  intros Hx. revert acc a. induction k as [|k IH]; intros acc a Ha; cbn [repeat fold_left].
  - eapply approx_compat; [exact Ha|]. unfold inject_Z. simpl. ring.
  - eapply approx_compat; [apply IH; apply approx_add; [exact Ha | exact Hx]|].
    rewrite inject_succ. ring.
Qed.

Lemma approx_multiplier (P : nat) :
  approx (num_div (Fin 2) (num_add (nat_num P) (Fin 1))) (2 / (inject_Z (Z.of_nat P) + 1)).
Proof.
  apply approx_div; [| apply approx_fin | apply approx_add; apply approx_fin].
  intros E. assert (H0 : 0 <= inject_Z (Z.of_nat P)) by (unfold Qle, inject_Z; simpl; lia).
  lra.
Qed.

(** X4: [calculateEMA] of the indicator engine on a constant series [c],
    with a period [P >= 1], equals [c] at every index from [P - 1] on. *)
Theorem ema_constant_series (c : Q) (n P : nat) : (1 <= P)%nat ->
  forall i, (P - 1 <= i < n)%nat ->
  approx (nth i (Indicators.calculateEMA (repeat (Fin c) n) P) NaN) c.
Proof.
  intros HP. destruct (ema_spec (repeat (Fin c) n) P HP) as [_ [_ [Hseed Hrec]]].
  cbv zeta in Hseed, Hrec. rewrite repeat_length in Hseed, Hrec.
  intros i Hi. remember (i - (P - 1))%nat as j eqn:Ej.
  revert i Hi Ej. induction j as [|j IH]; intros i Hi Ej.
  - replace i with (P - 1)%nat by lia. rewrite Hseed by lia.
    rewrite firstn_repeat_le by lia.
    eapply approx_compat.
    + apply (approx_div _ _ (0 + inject_Z (Z.of_nat P) * c) (inject_Z (Z.of_nat P)));
        [apply nat_num_nonzero; lia | | apply approx_nat].
      unfold Indicators.js_sum. apply approx_sum_repeat; apply approx_fin.
    + field. apply nat_num_nonzero. lia.
  - rewrite Hrec by lia. rewrite nth_repeat_lt by lia.
    eapply approx_compat.
    + apply approx_add; apply approx_mul.
      * apply approx_fin.
      * apply approx_multiplier.
      * apply (IH (i - 1)%nat); lia.
      * apply approx_sub; [apply approx_fin | apply approx_multiplier].
    + ring.
Qed.


Lemma rsi_value_flat g l : approx0 g -> approx0 l -> approx0 (Indicators.rsi_value g l).
Proof.
  intros [a [-> Ha]] [b [-> Hb]]. unfold Indicators.rsi_value, num_or.
  replace (Qeq_bool b 0) with true by (symmetry; apply Qeq_bool_iff; exact Hb).
  unfold approx0. eapply approx_compat.
  - apply approx_sub; [apply approx_fin|].
    apply approx_div; [| apply approx_fin |].
    2:{ apply approx_add; [apply approx_fin|]. apply approx_div; [| apply approx_fin | apply approx_fin].
        intros E. discriminate. }
    rewrite Ha. intros E. unfold Qeq in E. simpl in E. discriminate.
  - rewrite Ha. reflexivity.
Qed.

Lemma approx0_sum (l : list num) (acc : num) :
  approx0 acc -> Forall approx0 l -> approx0 (fold_left num_add l acc).
Proof.
  revert acc. induction l as [|x l IH]; intros acc Ha Hl; simpl; [exact Ha|].
  inversion Hl; subst. apply IH; [|assumption].
  unfold approx0. eapply approx_compat; [apply approx_add; eassumption|]. reflexivity.
Qed.

Lemma approx0_mean (l : list num) P : (0 < P)%nat -> Forall approx0 l ->
  approx0 (num_div (Indicators.js_sum (js_slice l 0 (Some (Z.of_nat P)))) (nat_num P)).
Proof.
  intros HP Hl. unfold approx0. eapply approx_compat.
  - apply approx_div; [apply nat_num_nonzero; exact HP | | apply approx_nat].
    apply approx0_sum; [apply approx_fin|]. rewrite js_slice_prefix. apply forall_firstn, Hl.
  - field. apply nat_num_nonzero. exact HP.
Qed.

Lemma wilder_scan_flat P prev xs : (1 <= P)%nat ->
  approx0 prev -> Forall approx0 xs -> Forall approx0 (Indicators.wilder_scan P prev xs).
Proof.
  revert prev. induction xs as [|x xs IH]; intros prev HP Hp Hx; simpl; [constructor|].
  inversion Hx; subst.
  assert (Hv : approx0 (Indicators.wilder_step P prev x)).
  { unfold approx0, Indicators.wilder_step. eapply approx_compat.
    - apply (approx_div _ _ (0 * (inject_Z (Z.of_nat P) - 1) + 0) (inject_Z (Z.of_nat P)));
        [apply nat_num_nonzero; lia | | apply approx_nat].
      apply approx_add; [|eassumption]. apply approx_mul; [eassumption|].
      apply approx_sub; apply approx_fin.
    - field. apply nat_num_nonzero. lia. }
  constructor; [exact Hv|]. apply IH; assumption.
Qed.

Lemma flat_changes (c : Q) (n : nat) :
  Forall approx0 (Indicators.changes (repeat (Fin c) n)).
Proof.
  apply Forall_forall. intros x Hx. unfold Indicators.changes in Hx.
  apply in_map_iff in Hx. destruct Hx as [i [<- Hi]]. apply in_seq in Hi.
  rewrite repeat_length in Hi.
  replace (Z.of_nat i - 1)%Z with (Z.of_nat (i - 1)) by lia.
  rewrite !js_get_nth, !nth_repeat_lt by lia.
  unfold approx0. eapply approx_compat; [apply approx_sub; apply approx_fin|]. ring.
Qed.

Lemma flat_gains (ch : list num) : Forall approx0 ch ->
  Forall approx0 (map (fun c => if num_gt c (Fin 0) then c else Fin 0) ch).
Proof.
  intros H. apply Forall_map. eapply Forall_impl; [|exact H].
  intros x Hx. destruct (num_gt x (Fin 0)); [exact Hx | apply approx_fin].
Qed.

Lemma flat_losses (ch : list num) : Forall approx0 ch ->
  Forall approx0 (map (fun c => if num_lt c (Fin 0) then num_abs c else Fin 0) ch).
Proof.
  intros H. apply Forall_map. eapply Forall_impl; [|exact H].
  intros x [r [-> Hr]]. destruct (num_lt (Fin r) (Fin 0)); [|apply approx_fin].
  exists (Qabs r). split; [reflexivity|]. rewrite Hr. reflexivity.
Qed.

(** X7: [calculateRSI] of the indicator engine on a constant series is 0 at
    every index from [P] on: with no gains, the guarded division gives [100
    - 100 / 1]. *)
Theorem rsi_flat_series (c : Q) (n P : nat) : (1 <= P)%nat ->
  let out := Indicators.calculateRSI (repeat (Fin c) n) P in
  forall i, (P <= i < length out)%nat -> approx (nth i out NaN) 0.
Proof.
  intros HP. cbv zeta. unfold Indicators.calculateRSI. cbv zeta.
  pose proof (flat_changes c n) as Hch.
  set (ch := Indicators.changes (repeat (Fin c) n)) in *.
  pose proof (flat_gains ch Hch) as HG. pose proof (flat_losses ch Hch) as HL.
  set (gains := map (fun c => if num_gt c (Fin 0) then c else Fin 0) ch) in *.
  set (losses := map (fun c => if num_lt c (Fin 0) then num_abs c else Fin 0) ch) in *.
  pose proof (approx0_mean gains P ltac:(lia) HG) as HaG.
  pose proof (approx0_mean losses P ltac:(lia) HL) as HaL.
  set (aG := num_div (Indicators.js_sum (js_slice gains 0 (Some (Z.of_nat P)))) (nat_num P)) in *.
  set (aL := num_div (Indicators.js_sum (js_slice losses 0 (Some (Z.of_nat P)))) (nat_num P)) in *.
  assert (HsG := wilder_scan_flat P aG (skipn P gains) HP HaG (forall_skipn _ _ _ HG)).
  assert (HsL := wilder_scan_flat P aL (skipn P losses) HP HaL (forall_skipn _ _ _ HL)).
  intros i Hi. rewrite app_nth2 by (rewrite repeat_length; lia). rewrite repeat_length.
  rewrite length_app, repeat_length in Hi. cbn [length] in Hi.
  destruct (i - P)%nat as [|j] eqn:Ej; cbn [nth].
  - apply rsi_value_flat; assumption.
  - set (rest := map (fun '(g, l) => Indicators.rsi_value g l)
                   (combine (Indicators.wilder_scan P aG (skipn P gains))
                            (Indicators.wilder_scan P aL (skipn P losses)))) in *.
    assert (Hj : (j < length rest)%nat) by lia.
    assert (Hin : In (nth j rest NaN) rest) by (apply nth_In; exact Hj).
    unfold rest at 2 in Hin. apply in_map_iff in Hin. destruct Hin as [[g l] [Eq Hgl]].
    rewrite <- Eq. destruct (combine_forall _ _ _ _ HsG HsL g l Hgl).
    apply rsi_value_flat; assumption.
Qed.

(** ** Rate-limit detection *)

Section RateLimit.
Import String.StringSyntax.
Local Open Scope string_scope.

(** X1: [checkForRateLimitError] answers [true] only for a JSON object:
    never for [null], an array, a string, a number, a boolean or
    [undefined]. *)
Theorem rate_limit_only_objects (v : Api.js_value) :
  Api.checkForRateLimitError v = true -> exists ms, v = Api.JObj ms.
Proof.
  destruct v as [| |b|x|s|items|ms]; intros H; unfold Api.checkForRateLimitError in H;
    cbn [Api.is_object] in H; rewrite ?andb_false_r in H; try discriminate.
  exists ms. reflexivity.
Qed.

(** X2: When the [Note] member of a response is truthy, adding an
    [Information] member never changes the answer of
    [checkForRateLimitError]: [Note] takes precedence. *)
Theorem rate_limit_note_shadows (ms : list (String.string * Api.js_value)) (x : Api.js_value) :
  Api.truthy (Api.get_prop (Api.JObj ms) "Note") = true ->
  Api.checkForRateLimitError (Api.JObj (ms ++ [("Information", x)])%list)
  = Api.checkForRateLimitError (Api.JObj ms).
Proof.
  intros H. unfold Api.checkForRateLimitError. cbn [Api.truthy Api.is_object andb].
  assert (E : Api.get_prop (Api.JObj (ms ++ [("Information", x)])%list) "Note"
              = Api.get_prop (Api.JObj ms) "Note").
  { unfold Api.get_prop. rewrite rev_app_distr. reflexivity. }
  rewrite E. unfold Api.js_or at 2 4. rewrite H. reflexivity.
Qed.

End RateLimit.

Section UiCallers.

Import String.StringSyntax.
Local Open Scope string_scope.

(** X23: The data effect of [PredictionTabs] leaves the state alone on empty
    data. On 1 to 29 bars it clears the results and sets the insufficient-
    data message. On 30 or more bars it stores the prediction with an empty
    error, so the catch branch with its failure message is never taken. *)
Theorem tabs_catch_unreachable sort_by (data : list Forecast.StockTimeSeriesData)
  (s : Ui.tabs_state) :
  (length data = 0%nat -> Ui.on_data_change sort_by data s = s) /\
  ((0 < length data < 30)%nat ->
     Ui.on_data_change sort_by data s =
       {| Ui.technicalPrediction := None; Ui.technicalIndicators := None;
          Ui.error := Ui.insufficient_msg |}) /\
  ((30 <= length data)%nat -> exists r,
     Forecast.predictStockPrices sort_by data = inr r /\
     Ui.on_data_change sort_by data s =
       {| Ui.technicalPrediction := Some r; Ui.technicalIndicators := None;
          Ui.error := "" |}).
Proof.
  unfold Ui.on_data_change, Ui.loadTechnicalPrediction.
  split; [|split]; intros L.
  - rewrite L. reflexivity.
  - replace (0 <? length data)%nat with true by (symmetry; apply Nat.ltb_lt; lia).
    replace (length data <? 30)%nat with true by (symmetry; apply Nat.ltb_lt; lia).
    reflexivity.
  - replace (0 <? length data)%nat with true by (symmetry; apply Nat.ltb_lt; lia).
    replace (length data <? 30)%nat with false by (symmetry; apply Nat.ltb_ge; lia).
    destruct (predict_shape sort_by data L) as [p1 [q0 [_ [_ P]]]].
    cbv zeta in P. rewrite P. eexists. split; reflexivity.
Qed.

End UiCallers.

Lemma mapi_from_nth_error {A B} (f : nat -> A -> B) (l : list A) :
  forall k i, nth_error (Ui.mapi_from f k l) i = option_map (f (k + i)%nat) (nth_error l i).
Proof.
  induction l as [|x l IH]; intros k i; [destruct i; reflexivity|].
  destruct i as [|i]; cbn [Ui.mapi_from nth_error option_map].
  - rewrite Nat.add_0_r. reflexivity.
  - rewrite IH. replace (S k + i)%nat with (k + S i)%nat by lia. reflexivity.
Qed.

Lemma mapi_from_length {A B} (f : nat -> A -> B) (l : list A) :
  forall k, length (Ui.mapi_from f k l) = length l.
Proof. induction l; intros k; cbn; [reflexivity|]. rewrite IHl. reflexivity. Qed.

(** X25: On at least 30 bars, [StockPrediction]'s chart has [n + 2] rows.
    Row [i < n] shows the close of bar [i] as actual, and its prediction is
    [null] below index 20 and the backfit value from there on. The two extra
    rows have a [null] actual: the next-day row carries the next-day
    prediction, the next-week row carries [NaN]. The confidence percentage
    is [NaN]. *)
Theorem chart_rows_show_closes sort_by (bars : list Forecast.StockTimeSeriesData)
  (nextDay nextWeek : String.string) : (30 <= length bars)%nat ->
  match Forecast.predictStockPrices sort_by bars with
  | inr r =>
      let rows := Ui.chartData r nextDay nextWeek in
      length rows = (length bars + 2)%nat /\
      (forall i b, nth_error bars i = Some b ->
         nth_error rows i =
           Some {| Ui.row_date := Forecast.date b;
                   Ui.row_actual := Ui.CNum (Fin (Forecast.close b));
                   Ui.row_predicted :=
                     if (i <? Forecast.trainingWindow)%nat then Ui.CNull
                     else Ui.CNum (nth (i - Forecast.trainingWindow)
                                       (Forecast.backfit (Forecast.closes_of bars)) NaN) |}) /\
      nth_error rows (length bars) =
        Some {| Ui.row_date := nextDay; Ui.row_actual := Ui.CNull;
                Ui.row_predicted := Ui.CNum (Forecast.nextDayPrediction r) |} /\
      nth_error rows (S (length bars)) =
        Some {| Ui.row_date := nextWeek; Ui.row_actual := Ui.CNull;
                Ui.row_predicted := Ui.CNum NaN |} /\
      Ui.confidencePercentage r = NaN
  | inl _ => False
  end.
Proof.
  intros H. destruct (predict_shape sort_by bars H) as [p1 [q0 [_ [_ E]]]].
  cbv zeta in E. rewrite E. unfold Ui.chartData. cbn [Forecast.dates Forecast.actual
    Forecast.predicted Forecast.nextDayPrediction Forecast.nextWeekPrediction].
  set (bf := Forecast.backfit (Forecast.closes_of bars)).
  assert (Hbf : length bf = (length bars - 20)%nat).
  { unfold bf. rewrite backfit_length, closes_of_length. reflexivity. }
  assert (Hm : forall k, length (Ui.mapi_from (fun (i : nat) (date : String.string) =>
      {| Ui.row_date := date;
         Ui.row_actual := Ui.cell_of_num_at
           (Forecast.closes_of bars ++ p1 :: q0 :: repeat NaN 6) i;
         Ui.row_predicted := Ui.cell_of_opt_at
           (repeat None Forecast.trainingWindow ++ map Some bf) i |})
      k (map Forecast.date bars)) = length bars).
  { intros k. rewrite mapi_from_length, length_map. reflexivity. }
  split; [|split; [|split; [|split]]].
  - rewrite length_app, Hm. reflexivity.
  - intros i b Hb.
    assert (Hi : (i < length bars)%nat) by (apply nth_error_Some; congruence).
    rewrite nth_error_app1 by (rewrite Hm; exact Hi).
    rewrite mapi_from_nth_error, nth_error_map, Hb. cbn [option_map Nat.add].
    unfold Ui.cell_of_num_at, Ui.cell_of_opt_at.
    rewrite nth_error_app1 by (rewrite closes_of_length; exact Hi).
    unfold Forecast.closes_of. rewrite nth_error_map, Hb. cbn [option_map].
    f_equal. f_equal.
    destruct (Nat.ltb_spec i Forecast.trainingWindow) as [L|L].
    + rewrite nth_error_app1 by (rewrite repeat_length; exact L).
      rewrite nth_error_repeat by exact L. reflexivity.
    + rewrite nth_error_app2 by (rewrite repeat_length; exact L).
      rewrite repeat_length, nth_error_map.
      rewrite (nth_error_nth' bf NaN) by (unfold Forecast.trainingWindow in *; lia).
      reflexivity.
  - rewrite nth_error_app2 by (rewrite Hm; lia). rewrite Hm, Nat.sub_diag. reflexivity.
  - rewrite nth_error_app2 by (rewrite Hm; lia). rewrite Hm.
    replace (S (length bars) - length bars)%nat with 1%nat by lia. reflexivity.
  - unfold Ui.confidencePercentage. cbn [Forecast.confidence].
    rewrite pushed_closes_snoc. fold bf.
    destruct (slice_last_nan (Forecast.closes_of bars ++ [p1; q0; NaN; NaN; NaN; NaN; NaN])
                             (length bf)) as [B [EB HB]].
    { rewrite length_app, closes_of_length. simpl. lia. }
    rewrite EB, confidence_nan_last; [reflexivity|lia|]. rewrite HB. lia.
Qed.





Lemma below_cmp (x y : Q) :
  V8Sort.below_zero (V8Sort.sort_compare num_sub (Fin x) (Fin y)) = Qltb x y.
Proof.
  unfold V8Sort.below_zero, V8Sort.sort_compare, num_sub. cbn [num_neg num_add is_nan num_lt].
  apply Qltb_ext. rewrite Qred_correct. split; intros; lra.
Qed.

Lemma nle_trans a b c : nle a b -> nle b c -> nle a c.
Proof.
  intros [p [q [-> [-> H1]]]] [q' [r [E [-> H2]]]]. injection E as <-.
  exists p, r. split; [reflexivity|]. split; [reflexivity|]. lra.
Qed.

Lemma chain_sorted (R : num -> num -> Prop)
  (Rtrans : forall a b c, R a b -> R b c -> R a c) :
  forall l prev, chain R prev l -> sorted_by R (prev :: l).
Proof.
  induction l as [|c l IH]; intros prev Hc i j Hij.
  - cbn [length] in Hij. lia.
  - destruct Hc as [Hpc Hc]. specialize (IH c Hc).
    destruct j as [|j]; [lia|]. destruct i as [|i].
    + change (R prev (nth j (c :: l) NaN)).
      destruct j as [|j]; [exact Hpc|].
      apply Rtrans with c; [exact Hpc|]. apply (IH 0%nat (S j)). cbn [length] in *. lia.
    + change (R (nth i (c :: l) NaN) (nth j (c :: l) NaN)). apply IH. cbn [length] in *. lia.
Qed.

Lemma chain_impl (R1 R2 : num -> num -> Prop)
  (H12 : forall x y, is_fin x -> is_fin y -> R1 x y -> R2 x y) :
  forall l prev, is_fin prev -> Forall is_fin l -> chain R1 prev l -> chain R2 prev l.
Proof.
  induction l as [|c l IH]; intros prev Hp Hl Hc; [exact I|].
  inversion Hl as [|? ? Hc' Hl']; subst. destruct Hc as [H1 H2].
  split; [apply H12; assumption|]. apply IH; assumption.
Qed.

Lemma sorted_rev (R : num -> num -> Prop) l :
  sorted_by R l -> sorted_by (fun a b => R b a) (rev l).
Proof.
  intros H i j Hij. rewrite length_rev in Hij. rewrite !rev_nth by lia. apply H. lia.
Qed.

Lemma run_go (d : bool) : forall rest prev n r,
  r = (fix go (prev : num) (rest : list num) (n : nat) {struct rest} : nat :=
         match rest with
         | [] => n
         | c :: r =>
             let order := V8Sort.sort_compare num_sub c prev in
             if (if d then negb (V8Sort.below_zero order) else V8Sort.below_zero order)
             then n else go c r (S n)
         end) prev rest n ->
  (n <= r <= n + length rest)%nat /\
  chain (fun p c => V8Sort.below_zero (V8Sort.sort_compare num_sub c p) = d) prev
        (firstn (r - n) rest).
Proof.
  induction rest as [|c rest IH]; intros prev n r Er.
  - subst r. rewrite Nat.sub_diag. split; [cbn [length]; lia|exact I].
  - cbv beta iota zeta in Er.
    destruct d; destruct (V8Sort.below_zero (V8Sort.sort_compare num_sub c prev)) eqn:E;
      cbn [negb] in Er;
      try (subst r; rewrite Nat.sub_diag; split; [cbn [length]; lia|exact I]);
      destruct (IH c (S n) r Er) as [Hb Hc]; cbn [length];
      (split; [lia|]);
      replace (r - n)%nat with (S (r - S n)) by lia; cbn [firstn chain];
      (split; [exact E|exact Hc]).
Qed.

Lemma run_spec (l : list num) : (2 <= length l)%nat -> Forall is_fin l ->
  let '(rl, l') := V8Sort.count_and_make_run num_sub l in
  (rl <= length l)%nat /\ Permutation l l' /\ sorted_by nle (firstn rl l').
Proof.
  intros L F. destruct l as [|a0 [|a1 rest]]; cbn [length] in L; try lia.
  unfold V8Sort.count_and_make_run. cbv zeta.
  remember (V8Sort.below_zero (V8Sort.sort_compare num_sub a1 a0)) as d eqn:Ed.
  match goal with |- context [?f a1 rest 2%nat] =>
    pose proof (run_go d rest a1 2 (f a1 rest 2%nat) eq_refl) as [Hb Hc];
    revert Hb Hc; generalize (f a1 rest 2%nat) end.
  intros r Hb Hc. cbn [length] in Hb |- *.
  destruct r as [|[|m]]; try lia.
  replace (S (S m) - 2)%nat with m in Hc by lia.
  pose proof (Forall_inv F) as F0. pose proof (Forall_inv_tail F) as F1.
  pose proof (Forall_inv F1) as F2. pose proof (Forall_inv_tail F1) as F3.
  assert (Fm : Forall is_fin (a1 :: firstn m rest)) by (constructor; [exact F2|apply forall_firstn, F3]).
  assert (Lm : length (firstn m rest) = m) by (rewrite length_firstn; lia).
  destruct F0 as [x0 ->]. destruct F2 as [x1 ->].
  split; [lia|]. destruct d.
  - set (X := Fin x0 :: Fin x1 :: firstn m rest).
    assert (EX : firstn (S (S m)) (Fin x0 :: Fin x1 :: rest) = X) by reflexivity.
    assert (LX : length (rev X) = S (S m)) by (rewrite length_rev; cbn [X length]; lia).
    rewrite EX. split.
    + assert (E2 : Fin x0 :: Fin x1 :: rest = X ++ skipn m rest)
        by (cbn [X app]; rewrite firstn_skipn; reflexivity).
      change (skipn (S (S m)) (Fin x0 :: Fin x1 :: rest)) with (skipn m rest).
      transitivity (X ++ skipn m rest); [rewrite <- E2; apply Permutation_refl|].
      apply Permutation_app_tail, Permutation_rev.
    + rewrite firstn_app, LX, Nat.sub_diag, firstn_O, app_nil_r, firstn_all2 by lia.
      apply (sorted_rev (fun a b => nle b a)).
      apply chain_sorted; [intros a b c H1 H2; eapply nle_trans; eassumption|].
      apply (chain_impl (fun p c => V8Sort.below_zero (V8Sort.sort_compare num_sub c p) = true));
        [| exists x0; reflexivity | exact Fm | split; [symmetry; exact Ed|exact Hc]].
      intros a b [p ->] [q ->] H. rewrite below_cmp in H. apply Qltb_iff in H.
      exists q, p. split; [reflexivity|]. split; [reflexivity|]. lra.
  - split; [apply Permutation_refl|].
    change (firstn (S (S m)) (Fin x0 :: Fin x1 :: rest)) with (Fin x0 :: Fin x1 :: firstn m rest).
    apply chain_sorted; [exact nle_trans|].
    apply (chain_impl (fun p c => V8Sort.below_zero (V8Sort.sort_compare num_sub c p) = false));
      [| exists x0; reflexivity | exact Fm | split; [symmetry; exact Ed|exact Hc]].
    intros a b [p ->] [q ->] H. rewrite below_cmp in H.
    assert (~ q < p) by (intros H'; apply Qltb_iff in H'; congruence).
    exists p, q. split; [reflexivity|]. split; [reflexivity|]. lra.
Qed.

Lemma insertion_point_spec (x : Q) (pre : list num)
  (Spre : sorted_by nle pre) (Fpre : Forall is_fin pre) :
  forall fuel left right,
  (left <= right <= length pre)%nat -> (right - left < fuel)%nat ->
  (forall j, (j < left)%nat -> nle (nth j pre NaN) (Fin x)) ->
  (forall j, (right <= j < length pre)%nat -> nle (Fin x) (nth j pre NaN)) ->
  let k := V8Sort.insertion_point num_sub (Fin x) pre left right fuel in
  (k <= length pre)%nat /\
  (forall j, (j < k)%nat -> nle (nth j pre NaN) (Fin x)) /\
  (forall j, (k <= j < length pre)%nat -> nle (Fin x) (nth j pre NaN)).
Proof.
  induction fuel as [|fuel IH]; intros left right Hlr Hf Hlo Hhi; [lia|].
  cbn [V8Sort.insertion_point]. destruct (Nat.ltb_spec left right) as [L|L].
  - set (mid := (left + Nat.div (right - left) 2)%nat).
    assert (Hmid : (left <= mid < right)%nat).
    { unfold mid. pose proof (Nat.div_mod_eq (right - left) 2).
      pose proof (Nat.mod_upper_bound (right - left) 2). lia. }
    destruct (forall_nth_fin pre mid Fpre ltac:(lia)) as [p Ep]. rewrite Ep, below_cmp.
    destruct (Qltb x p) eqn:E.
    + apply Qltb_iff in E. apply IH; [lia|lia|exact Hlo|].
      intros j Hj. destruct (Nat.eq_dec j mid) as [->|Ne].
      * rewrite Ep. exists x, p. split; [reflexivity|]. split; [reflexivity|]. lra.
      * apply nle_trans with (Fin p).
        -- exists x, p. split; [reflexivity|]. split; [reflexivity|]. lra.
        -- rewrite <- Ep. apply Spre. lia.
    + assert (~ x < p) by (intros H'; apply Qltb_iff in H'; congruence).
      apply IH; [lia|lia| |exact Hhi].
      intros j Hj. destruct (Nat.eq_dec j mid) as [->|Ne].
      * rewrite Ep. exists p, x. split; [reflexivity|]. split; [reflexivity|]. lra.
      * apply nle_trans with (Fin p).
        -- rewrite <- Ep. apply Spre. lia.
        -- exists p, x. split; [reflexivity|]. split; [reflexivity|]. lra.
  - assert (left = right) by lia. subst right.
    split; [lia|]. split; assumption.
Qed.

Lemma nth_insert (pre : list num) (k : nat) (x : num) (i : nat) : (k <= length pre)%nat ->
  nth i (firstn k pre ++ x :: skipn k pre) NaN =
  if (i <? k)%nat then nth i pre NaN else if (i =? k)%nat then x else nth (i - 1) pre NaN.
Proof.
  intros Hk. assert (Lf : length (firstn k pre) = k) by (rewrite length_firstn; lia).
  destruct (Nat.ltb_spec i k) as [L|L].
  - rewrite app_nth1 by lia. rewrite nth_firstn. replace (i <? k)%nat with true
      by (symmetry; apply Nat.ltb_lt; exact L). reflexivity.
  - rewrite app_nth2 by lia. rewrite Lf.
    destruct (Nat.eqb_spec i k) as [->|Ne].
    + rewrite Nat.sub_diag. reflexivity.
    + replace (i - k)%nat with (S (i - k - 1)) by lia. cbn [nth].
      rewrite nth_skipn. f_equal. lia.
Qed.

Lemma binary_insert_spec (pre : list num) (x : Q) :
  sorted_by nle pre -> Forall is_fin pre ->
  sorted_by nle (V8Sort.binary_insert num_sub pre (Fin x)) /\
  Permutation (Fin x :: pre) (V8Sort.binary_insert num_sub pre (Fin x)).
Proof.
  intros Spre Fpre. unfold V8Sort.binary_insert.
  destruct (insertion_point_spec x pre Spre Fpre (S (length pre)) 0 (length pre))
    as [Hk [Hlo Hhi]]; [lia|lia|intros; lia|intros; lia|].
  revert Hk Hlo Hhi. generalize (V8Sort.insertion_point num_sub (Fin x) pre 0
    (length pre) (S (length pre))). intros k Hk Hlo Hhi.
  split.
  - intros i j Hij.
    assert (Len : length (firstn k pre ++ Fin x :: skipn k pre) = S (length pre)).
    { rewrite length_app, length_firstn. cbn [length]. rewrite length_skipn. lia. }
    rewrite Len in Hij. rewrite !nth_insert by exact Hk.
    destruct (Nat.ltb_spec i k); destruct (Nat.eqb_spec i k);
    destruct (Nat.ltb_spec j k); destruct (Nat.eqb_spec j k); try lia;
    first [apply Spre; lia | apply Hlo; lia | apply Hhi; lia].
  - rewrite <- (firstn_skipn k pre) at 1. apply Permutation_middle.
Qed.

Lemma fold_insert_spec : forall (rest pre : list num),
  sorted_by nle pre -> Forall is_fin pre -> Forall is_fin rest ->
  sorted_by nle (fold_left (V8Sort.binary_insert num_sub) rest pre) /\
  Permutation (pre ++ rest) (fold_left (V8Sort.binary_insert num_sub) rest pre).
Proof.
  induction rest as [|c rest IH]; intros pre Spre Fpre Frest.
  - cbn [fold_left]. rewrite app_nil_r. split; [exact Spre|apply Permutation_refl].
  - pose proof (Forall_inv Frest) as [x ->]. pose proof (Forall_inv_tail Frest) as Fr.
    destruct (binary_insert_spec pre x Spre Fpre) as [S1 P1].
    cbn [fold_left].
    destruct (IH (V8Sort.binary_insert num_sub pre (Fin x)) S1
                 (Permutation_Forall P1 (Forall_cons _ (ex_intro _ x eq_refl) Fpre)) Fr)
      as [S2 P2].
    split; [exact S2|].
    apply Permutation_trans with ((Fin x :: pre) ++ rest); [apply Permutation_sym, Permutation_middle|].
    apply Permutation_trans with (V8Sort.binary_insert num_sub pre (Fin x) ++ rest); [|exact P2].
    apply Permutation_app_tail, P1.
Qed.

Lemma v8_sort_spec (l : list num) : Forall is_fin l ->
  sorted_by nle (V8Sort.v8_sort_small num_sub l) /\
  Permutation l (V8Sort.v8_sort_small num_sub l).
Proof.
  intros F. unfold V8Sort.v8_sort_small. destruct (Nat.ltb_spec (length l) 2) as [L|L].
  - split; [intros i j Hij; lia|apply Permutation_refl].
  - pose proof (run_spec l L F) as R.
    destruct (V8Sort.count_and_make_run num_sub l) as [rl l'].
    destruct R as [_ [P S0]].
    pose proof (Permutation_Forall P F) as F'.
    destruct (fold_insert_spec (skipn rl l') (firstn rl l') S0
                (forall_firstn _ _ _ F') (forall_skipn _ _ _ F')) as [S1 P1].
    split; [exact S1|]. rewrite firstn_skipn in P1. eapply Permutation_trans; eassumption.
Qed.

(** X19: [findSupportResistance], with V8's sort, on a non-empty list of
    finite prices returns a support and a resistance that are both prices of
    the list, with support <= resistance. *)
Theorem support_le_resistance (data : list Q) : (1 <= length data)%nat ->
  exists s r,
    Forecast.findSupportResistance V8Sort.v8_sort_small (map Fin data) = (Fin s, Fin r) /\
    s <= r /\ In s data /\ In r data.
Proof.
  intros L. unfold Forecast.findSupportResistance. cbv zeta.
  assert (F : Forall is_fin (map Fin data)).
  { apply Forall_map, Forall_forall. intros q _. exists q. reflexivity. }
  destruct (v8_sort_spec _ F) as [Ss Ps].
  set (out := V8Sort.v8_sort_small num_sub (map Fin data)) in *.
  assert (Lo : length out = length data) by (rewrite <- (Permutation_length Ps), length_map; reflexivity).
  pose proof (Permutation_Forall Ps F) as Fo.
  rewrite Lo, !js_get_nth.
  set (n := length data) in *.
  assert (H1 : (n / 4 <= 3 * n / 4 < n)%nat).
  { pose proof (Nat.div_mod_eq n 4). pose proof (Nat.mod_upper_bound n 4).
    pose proof (Nat.div_mod_eq (3 * n) 4). pose proof (Nat.mod_upper_bound (3 * n) 4). lia. }
  destruct (forall_nth_fin out (n / 4) Fo ltac:(lia)) as [s Es].
  destruct (forall_nth_fin out (3 * n / 4) Fo ltac:(lia)) as [r Er].
  assert (Hin : forall k q, (k < n)%nat -> nth k out NaN = Fin q -> In q data).
  { intros k q Hk Ek. assert (I : In (Fin q) (map Fin data)).
    { apply (Permutation_in _ (Permutation_sym Ps)). rewrite <- Ek. apply nth_In. lia. }
    apply in_map_iff in I as [y [Ey Iy]]. injection Ey as ->. exact Iy. }
  exists s, r. rewrite Es, Er. split; [reflexivity|]. split; [|split; [apply (Hin (n / 4)%nat); [lia|exact Es]|apply (Hin (3 * n / 4)%nat); [lia|exact Er]]].
  destruct (Nat.eq_dec (n / 4) (3 * n / 4)) as [E|Ne].
  - rewrite E, Er in Es. injection Es as ->. apply Qle_refl.
  - destruct (Ss (n / 4)%nat (3 * n / 4)%nat ltac:(lia)) as [p [q [Ep [Eq Hpq]]]].
    rewrite Es in Ep. rewrite Er in Eq. injection Ep as ->. injection Eq as ->. exact Hpq.
Qed.

(** ** The helpers of the forecast module *)

Lemma js_slice_window {A} (l : list A) (j w : nat) : (j + w <= length l)%nat ->
  js_slice l (Z.of_nat j) (Some (Z.of_nat (j + w))) = firstn w (skipn j l).
Proof.
  intros H. unfold js_slice, js_rel.
  replace (Z.of_nat j <? 0)%Z with false by (symmetry; apply Z.ltb_ge; lia).
  replace (Z.of_nat (j + w) <? 0)%Z with false by (symmetry; apply Z.ltb_ge; lia).
  rewrite !Nat2Z.id.
  replace (Nat.min (j + w) (length l)) with (j + w)%nat by lia.
  replace (Nat.min j (length l)) with j by lia.
  f_equal. lia.
Qed.

Lemma approx_sum_fin (l : list Q) : forall a,
  approx (fold_left num_add (map Fin l) (Fin a)) (a + fold_right Qplus 0 l).
Proof.
  induction l as [|x l IH]; intros a; cbn [map fold_left fold_right].
  - apply approx_compat with a; [apply approx_fin|ring].
  - apply approx_compat with (Qred (a + x) + fold_right Qplus 0 l); [apply IH|].
    rewrite Qred_correct. ring.
Qed.

Lemma fc_sma_length (l : list num) (w : nat) : (1 <= w)%nat ->
  length (Forecast.calculateSMA l w) = (length l + 1 - w)%nat.
Proof.
  intros Hw. unfold Forecast.calculateSMA, Forecast.zrange.
  rewrite !length_map, length_seq. lia.
Qed.

Lemma fc_sma_nth (l : list num) (w j : nat) : (1 <= w)%nat -> (j < length l + 1 - w)%nat ->
  nth j (Forecast.calculateSMA l w) NaN =
  num_div (Forecast.js_sum (firstn w (skipn j l))) (nat_num w).
Proof.
  intros Hw Hj. unfold Forecast.calculateSMA, Forecast.zrange. rewrite map_map.
  rewrite nth_map_seq by lia. cbv beta zeta.
  replace (Z.of_nat w - 1 + Z.of_nat j - Z.of_nat w + 1)%Z with (Z.of_nat j) by lia.
  replace (Z.of_nat w - 1 + Z.of_nat j + 1)%Z with (Z.of_nat (j + w)) by lia.
  rewrite js_slice_window by lia. reflexivity.
Qed.

(** X13: The forecast engine's [calculateSMA] with a window [w >= 1] returns
    [length data + 1 - w] values. Value [j] is the mean of [data[j .. j + w
    - 1]]. *)
Theorem fc_sma_windows (data : list Q) (w : nat) : (1 <= w)%nat ->
  length (Forecast.calculateSMA (map Fin data) w) = (length data + 1 - w)%nat /\
  forall j, (j < length data + 1 - w)%nat ->
    approx (nth j (Forecast.calculateSMA (map Fin data) w) NaN)
           (arith_mean (firstn w (skipn j data))).
Proof.
  intros Hw. rewrite fc_sma_length, length_map by exact Hw. split; [reflexivity|].
  intros j Hj. rewrite fc_sma_nth by (rewrite ?length_map; lia).
  rewrite skipn_map, firstn_map. unfold Forecast.js_sum, arith_mean.
  rewrite length_firstn, length_skipn. replace (Nat.min w (length data - j)) with w by lia.
  apply approx_compat with ((0 + fold_right Qplus 0 (firstn w (skipn j data))) / inject_Z (Z.of_nat w)).
  - apply approx_div.
    + intros E. unfold Qeq, inject_Z in E. cbn [Qnum Qden] in E. lia.
    + apply approx_sum_fin.
    + apply approx_nat.
  - rewrite Qplus_0_l. reflexivity.
Qed.

Lemma fc_sma_nonneg (l : list num) (w : nat) : (1 <= w)%nat -> Forall fin_nonneg l ->
  Forall fin_nonneg (Forecast.calculateSMA l w).
Proof.
  intros Hw Hl. apply Forall_forall. intros x Hx.
  destruct (In_nth _ _ NaN Hx) as [j [Hj <-]]. rewrite fc_sma_length in Hj by exact Hw.
  rewrite fc_sma_nth by assumption. apply nonneg_div_nat; [lia|].
  apply nonneg_fold_add; [exists 0; split; [reflexivity|lra]|].
  apply forall_firstn, forall_skipn, Hl.
Qed.

Lemma nth_map_lt {A B} (f : A -> B) (l : list A) (d : A) (d' : B) (i : nat) :
  (i < length l)%nat -> nth i (map f l) d' = f (nth i l d).
Proof. intros Hi. rewrite nth_indep with (d' := f d) by (rewrite length_map; exact Hi). apply map_nth. Qed.

(** X16: The forecast engine's [calculateRSI] with a window [w >= 1] on
    finite prices returns [max w (length data)] entries. The first [w] are
    [undefined], and the ones from [w] up to [length data - 1] are finite
    values between 0 and 100. *)
Theorem fc_rsi_padded (data : list Q) (w : nat) : (1 <= w)%nat ->
  length (Forecast.calculateRSI (map Fin data) w) = Nat.max w (length data) /\
  (forall i, (i < w)%nat -> nth i (Forecast.calculateRSI (map Fin data) w) None = None) /\
  (forall i, (w <= i < length data)%nat ->
     exists q, nth i (Forecast.calculateRSI (map Fin data) w) None = Some (Fin q) /\
               0 <= q <= 100).
Proof.
  intros Hw. unfold Forecast.calculateRSI. cbv zeta.
  pose proof (changes_fin data) as Fc. unfold Indicators.changes in Fc.
  set (ch := map (fun i => num_sub (js_get (map Fin data) (Z.of_nat i))
                                   (js_get (map Fin data) (Z.of_nat i - 1)))
                 (seq 1 (length (map Fin data) - 1))) in *.
  assert (Lc : length ch = (length data - 1)%nat)
    by (unfold ch; rewrite length_map, length_seq, length_map; reflexivity).
  set (gs := Forecast.calculateSMA (map (fun d => if num_gt d (Fin 0) then d else Fin 0) ch) w).
  set (ls := Forecast.calculateSMA (map (fun d => if num_lt d (Fin 0) then num_abs d else Fin 0) ch) w).
  assert (Lg : length gs = (length data - w)%nat) by (unfold gs; rewrite fc_sma_length, length_map; lia).
  assert (Ll : length ls = (length data - w)%nat) by (unfold ls; rewrite fc_sma_length, length_map; lia).
  assert (Ng : Forall fin_nonneg gs) by (apply fc_sma_nonneg; [exact Hw|apply gains_nonneg, Fc]).
  assert (Nl : Forall fin_nonneg ls) by (apply fc_sma_nonneg; [exact Hw|apply losses_nonneg, Fc]).
  assert (Lr : length (combine (seq 0 (length gs)) gs) = length gs)
    by (rewrite length_combine, length_seq; lia).
  split; [|split].
  - rewrite length_app, repeat_length, !length_map, Lr, Lg. lia.
  - intros i Hi. rewrite app_nth1 by (rewrite repeat_length; exact Hi). apply nth_repeat.
  - intros i Hi. rewrite app_nth2 by (rewrite repeat_length; lia). rewrite repeat_length.
    set (k := (i - w)%nat). assert (Hk : (k < length gs)%nat) by (unfold k; lia).
    rewrite (nth_map_lt _ _ NaN) by (rewrite !length_map, Lr; exact Hk).
    rewrite (nth_map_lt _ _ NaN) by (rewrite !length_map, Lr; exact Hk).
    rewrite (nth_map_lt _ _ (0%nat, NaN)) by (rewrite Lr; exact Hk).
    rewrite combine_nth by (rewrite length_seq; reflexivity).
    rewrite seq_nth by exact Hk. cbn [Nat.add]. rewrite js_get_nth.
    destruct (rsi_value_range (nth k gs NaN) (nth k ls NaN)) as [q [Eq Hq]].
    + rewrite Forall_forall in Ng. apply Ng, nth_In, Hk.
    + rewrite Forall_forall in Nl. apply Nl, nth_In. lia.
    + exists q. split; [|exact Hq]. unfold Indicators.rsi_value in Eq. rewrite Eq. reflexivity.
Qed.

Section FcEMA.
Variables (data : list num) (window : nat).

Lemma fc_ema_fold : forall k,
  let K := num_div (Fin 2) (num_add (nat_num window) (Fin 1)) in
  let acc :=
    fold_left
      (fun emaData i =>
         (emaData ++
          [Some (num_add (num_mul (js_get data (Z.of_nat i)) K)
                         (num_mul (Forecast.undefined_num (nth (i - 1) emaData None))
                                  (num_sub (Fin 1) K)))])%list)
      (seq 1 k) [nth_error data 0] in
  length acc = S k /\ nth 0 acc None = nth_error data 0 /\
  forall i, (1 <= i <= k)%nat ->
    nth i acc None =
      Some (num_add (num_mul (js_get data (Z.of_nat i)) K)
                    (num_mul (Forecast.undefined_num (nth (i - 1) acc None))
                             (num_sub (Fin 1) K))).
Proof.
  induction k as [|k IH]; cbv zeta.
  - split; [reflexivity|]. split; [reflexivity|]. intros; lia.
  - rewrite seq_S, fold_left_app. cbn [fold_left Nat.add].
    cbv zeta in IH. destruct IH as [L [H0 Hi]].
    set (acc := fold_left _ (seq 1 k) _) in *.
    rewrite length_app, L. split; [cbn [length]; lia|].
    split; [rewrite app_nth1 by lia; exact H0|].
    intros i Hik. destruct (Nat.eq_dec i (S k)) as [->|Ne].
    + rewrite app_nth2 by lia. rewrite L, Nat.sub_diag. cbn [nth].
      rewrite app_nth1 by lia. reflexivity.
    + rewrite !app_nth1 by lia. apply Hi. lia.
Qed.

End FcEMA.

(** X14: The forecast engine's [calculateEMA] returns [max 1 (length data)]
    entries. The first is [data[0]] ([undefined] on empty input), and every
    later entry within the input's length is defined. *)
Theorem fc_ema_shape (data : list num) (window : nat) :
  length (Forecast.calculateEMA data window) = Nat.max 1 (length data) /\
  nth 0 (Forecast.calculateEMA data window) None = nth_error data 0 /\
  forall i, (1 <= i < length data)%nat ->
    exists v, nth i (Forecast.calculateEMA data window) None = Some v.
Proof.
  unfold Forecast.calculateEMA. cbv zeta.
  destruct (fc_ema_fold data window (length data - 1)) as [L [H0 Hi]].
  split; [rewrite L; lia|]. split; [exact H0|].
  intros i Hi'. rewrite Hi by lia. eexists. reflexivity.
Qed.

(** X15: The forecast engine's [calculateEMA] on [n >= 1] copies of [c]
    returns [c] at every one of its [n] indices, whatever the window. *)
Theorem fc_ema_constant (c : Q) (n window : nat) : (1 <= n)%nat ->
  forall i, (i < n)%nat ->
    exists v, nth i (Forecast.calculateEMA (repeat (Fin c) n) window) None = Some v /\
              approx v c.
Proof.
  intros Hn. unfold Forecast.calculateEMA. cbv zeta.
  rewrite repeat_length.
  destruct (fc_ema_fold (repeat (Fin c) n) window (n - 1)) as [L [H0 Hi]].
  cbv zeta in Hi, H0, L.
  set (acc := fold_left _ (seq 1 (n - 1)) _) in *.
  induction i as [|i IH]; intros Hin.
  - rewrite H0. destruct n as [|n]; [lia|]. cbn [repeat nth_error].
    exists (Fin c). split; [reflexivity|apply approx_fin].
  - destruct IH as [v [Ev Hv]]; [lia|].
    rewrite Hi by lia. replace (S i - 1)%nat with i by lia. rewrite Ev. cbn [Forecast.undefined_num].
    rewrite js_get_nth, nth_repeat_lt by lia.
    eexists. split; [reflexivity|].
    pose proof (approx_multiplier window) as Hk.
    apply approx_compat with (c * (2 / (inject_Z (Z.of_nat window) + 1))
                              + c * (1 - 2 / (inject_Z (Z.of_nat window) + 1))).
    + apply approx_add; apply approx_mul; try assumption; try apply approx_fin.
      apply approx_sub; [apply approx_fin|exact Hk].
    + ring.
Qed.

(** ** All indicators and Bollinger bands *)

Lemma map_fin_comp {A} (f : A -> Q) (l : list A) :
  map (fun x => Fin (f x)) l = map Fin (map f l).
Proof. rewrite map_map. reflexivity. Qed.

Lemma all_indicators_shape (math_sqrt : num -> num)
  (stockData : list Forecast.StockTimeSeriesData) :
  let ind := Indicators.calculateAllIndicators math_sqrt stockData in
  let n := length stockData in
  length (Indicators.sma ind) = n /\
  length (Indicators.ema ind) = n /\
  (let '(line, signal, histogram) := Indicators.macd ind in
   length line = n /\ length signal = n /\ length histogram = n) /\
  length (Indicators.rsi ind) = Nat.max n 15 /\
  (let '(upper, middle, lower) := Indicators.bollingerBands ind in
   length upper = n /\ length middle = n /\ length lower = n) /\
  length (Indicators.volumes ind) = n /\
  length (Indicators.dates ind) = n /\
  length (Indicators.adx ind) = Nat.max n 28 /\
  length (Indicators.parabolicSAR ind) = Nat.max 1 n.
Proof.
  cbv zeta. unfold Indicators.calculateAllIndicators. cbv zeta.
  cbn [Indicators.sma Indicators.ema Indicators.macd Indicators.rsi Indicators.bollingerBands
       Indicators.volumes Indicators.dates Indicators.adx Indicators.parabolicSAR].
  rewrite !(map_fin_comp Forecast.close).
  set (cs := map Forecast.close stockData).
  assert (Lc : length cs = length stockData) by apply length_map.
  split; [|split; [|split; [|split; [|split; [|split; [|split; [|split]]]]]]].
  - unfold Indicators.calculateSMA. rewrite length_map, length_seq, length_map. exact Lc.
  - destruct (ema_spec (map Fin cs) 20 ltac:(lia)) as [L _]. rewrite L, length_map. exact Lc.
  - pose proof (macd_shape cs 12 26 9 ltac:(lia) ltac:(lia) ltac:(lia)) as H. cbv zeta in H.
    destruct (Indicators.calculateMACD (map Fin cs) 12 26 9) as [[l s] h].
    destruct H as [L1 [L2 [L3 _]]]. rewrite L1, L2, L3, Lc. split; [|split]; reflexivity.
  - destruct (rsi_shape cs 14 ltac:(lia)) as [L _]. rewrite L, Lc. reflexivity.
  - unfold Indicators.calculateBollingerBands. cbv zeta.
    cbv beta iota zeta. rewrite !length_map, length_seq.
    unfold Indicators.calculateSMA. rewrite length_map, length_seq, length_map, Lc.
    split; [|split]; reflexivity.
  - apply length_map.
  - apply length_map.
  - destruct (adx_shape (map (fun data => Fin (Forecast.high data)) stockData)
                        (map (fun data => Fin (Forecast.low data)) stockData) (map Fin cs) 14
                        ltac:(lia)) as [L _].
    rewrite L, length_map, Lc. reflexivity.
  - destruct (psar_shape (map (fun data => Fin (Forecast.high data)) stockData)
                         (map (fun data => Fin (Forecast.low data)) stockData) (map Fin cs)
                         (2 # 100) (2 # 10)) as [L _].
    rewrite L, length_map, Lc. reflexivity.
Qed.

Lemma sma_nan_below (data : list num) (P i : nat) : (i < length data)%nat -> (i < P - 1)%nat ->
  nth i (Indicators.calculateSMA data P) NaN = NaN.
Proof.
  intros Hi Hlt. unfold Indicators.calculateSMA. rewrite nth_map_seq by exact Hi.
  replace (Z.of_nat i <? Z.of_nat P - 1)%Z with true by (symmetry; apply Z.ltb_lt; lia).
  reflexivity.
Qed.

Lemma sma_fin_above (data : list Q) (P i : nat) : (0 < P)%nat -> (i < length data)%nat ->
  (P - 1 <= i)%nat -> exists q, nth i (Indicators.calculateSMA (map Fin data) P) NaN = Fin q.
Proof.
  intros HP Hi Hge. unfold Indicators.calculateSMA.
  rewrite nth_map_seq by (rewrite length_map; exact Hi).
  replace (Z.of_nat i <? Z.of_nat P - 1)%Z with false by (symmetry; apply Z.ltb_ge; lia).
  destruct (sma_window_sum data i P) as [s [Es _]]; [lia | exact Hi |].
  rewrite Es. unfold num_div, nat_num. rewrite inject_nat_nonzero by exact HP.
  eexists. reflexivity.
Qed.

Lemma sd_sum_nonneg (data : list Q) (m : Q) (i : nat) (Hi : (i < length data)%nat) :
  forall js sum, fin_nonneg sum ->
  fin_nonneg (Indicators.sd_sum (map Fin data) (Fin m) (Z.of_nat i) js sum).
Proof.
  induction js as [|j js IH]; intros sum Hs; cbn [Indicators.sd_sum]; [exact Hs|].
  destruct (Z.ltb_spec (Z.of_nat i - Z.of_nat j) 0) as [L|L]; [exact Hs|].
  apply IH. apply nonneg_add; [exact Hs|].
  replace (Z.of_nat i - Z.of_nat j)%Z with (Z.of_nat (i - j)) by lia.
  rewrite js_get_map_fin by lia. unfold Indicators.math_pow2.
  rewrite num_sub_fin. cbn [num_mul]. eexists. split; [reflexivity|].
  rewrite Qred_correct. nra.
Qed.

(** X8: [calculateBollingerBands] on finite prices, with [period >= 1],
    [stdDev >= 0] and a square root that is finite and non-negative on non-
    negative inputs, returns three arrays as long as the input. They are
    [NaN] before index [period - 1]. From there on they are finite with
    [lower <= middle <= upper], and the bands lie at equal distance from the
    middle. *)
Theorem bollinger_symmetric (math_sqrt : num -> num) (data : list Q) (P : nat) (k : Q) :
  (1 <= P)%nat -> 0 <= k ->
  (forall q, 0 <= q -> exists r, math_sqrt (Fin q) = Fin r /\ 0 <= r) ->
  let '(upper, middle, lower) :=
    Indicators.calculateBollingerBands math_sqrt (map Fin data) P (Fin k) in
  length upper = length data /\ length middle = length data /\ length lower = length data /\
  forall i, (i < length data)%nat ->
    ((i < P - 1)%nat -> nth i upper NaN = NaN /\ nth i middle NaN = NaN /\ nth i lower NaN = NaN) /\
    ((P - 1 <= i)%nat -> exists u m l,
       nth i upper NaN = Fin u /\ nth i middle NaN = Fin m /\ nth i lower NaN = Fin l /\
       l <= m <= u /\ u - m == m - l).
Proof.
  intros HP Hk Hsqrt. unfold Indicators.calculateBollingerBands. cbv beta iota zeta.
  set (mid := Indicators.calculateSMA (map Fin data) P).
  assert (Lm : length mid = length data)
    by (unfold mid, Indicators.calculateSMA; rewrite length_map, length_seq, length_map; reflexivity).
  rewrite !length_map, length_seq, Lm.
  split; [reflexivity|]. split; [reflexivity|]. split; [reflexivity|].
  intros i Hi.
  rewrite !(nth_map_lt _ _ (NaN, NaN)) by (rewrite length_map, length_seq; exact Hi).
  rewrite !(nth_map_seq _ (length data)) by exact Hi.
  rewrite js_get_nth. split.
  - intros Hlt. assert (E : nth i mid NaN = NaN) by (apply sma_nan_below; [rewrite length_map|]; lia).
    rewrite E. cbn [is_nan fst snd]. split; [reflexivity|]. split; reflexivity.
  - intros Hge. destruct (sma_fin_above data P i ltac:(lia) Hi Hge) as [m Em].
    fold mid in Em. rewrite Em. cbn [is_nan fst snd].
    destruct (nonneg_div_nat (Indicators.sd_sum (map Fin data) (Fin m) (Z.of_nat i)
                                 (seq 0 P) (Fin 0)) P ltac:(lia)) as [v [Ev Hv]].
    { apply sd_sum_nonneg; [exact Hi|]. exists 0. split; [reflexivity|lra]. }
    rewrite Ev. destruct (Hsqrt v Hv) as [r [Er Hr]]. rewrite Er. cbn [num_mul].
    rewrite !num_sub_fin. cbn [num_add num_neg].
    eexists _, m, _. split; [reflexivity|]. split; [reflexivity|]. split; [reflexivity|].
    assert (Hkr : 0 <= k * r) by (apply Qmult_le_0_compat; assumption).
    rewrite !Qred_correct. split; [split|]; lra.
Qed.

Lemma cell_defined (l : list num) (i : nat) : (i < length l)%nat ->
  Ui.cell_of_num_at l i <> Ui.CUndefined.
Proof.
  intros Hi. unfold Ui.cell_of_num_at.
  destruct (nth_error l i) eqn:E; [discriminate|]. apply nth_error_None in E. lia.
Qed.

(** X24: [loadTechnicalIndicators] run with no indicators loaded on fewer
    than 30 bars stores none and sets the insufficient-data message. On 30
    or more bars it stores the indicators, and the chart built from them has
    one row per bar in which no indicator cell is [undefined]. *)
Theorem indicators_tab_rows_defined (math_sqrt : num -> num)
  (data : list Forecast.StockTimeSeriesData) (s : Ui.tabs_state) :
  Ui.technicalIndicators s = None ->
  ((length data < 30)%nat ->
     Ui.technicalIndicators (Ui.loadTechnicalIndicators math_sqrt data s) = None /\
     Ui.error (Ui.loadTechnicalIndicators math_sqrt data s) = Ui.insufficient_indicators_msg) /\
  ((30 <= length data)%nat -> exists ind,
     Ui.technicalIndicators (Ui.loadTechnicalIndicators math_sqrt data s) = Some ind /\
     length (Ui.indicators_chartData data ind) = length data /\
     forall i row, nth_error (Ui.indicators_chartData data ind) i = Some row ->
       Forall (fun c => c <> Ui.CUndefined)
         [Ui.ir_sma row; Ui.ir_ema row; Ui.ir_upper row; Ui.ir_middle row; Ui.ir_lower row;
          Ui.ir_macdLine row; Ui.ir_macdSignal row; Ui.ir_macdHistogram row;
          Ui.ir_rsi row; Ui.ir_adx row; Ui.ir_psar row]).
Proof.
  intros Hs. unfold Ui.loadTechnicalIndicators. rewrite Hs. split; intros L.
  - replace (length data <? 30)%nat with true by (symmetry; apply Nat.ltb_lt; exact L).
    cbn [Ui.set_error Ui.technicalIndicators Ui.error]. split; [exact Hs|reflexivity].
  - replace (length data <? 30)%nat with false by (symmetry; apply Nat.ltb_ge; exact L).
    set (ind := Indicators.calculateAllIndicators math_sqrt data).
    exists ind. split; [reflexivity|].
    pose proof (all_indicators_shape math_sqrt data) as H. cbv zeta in H. fold ind in H.
    destruct H as [Ls [Le [Lm [Lr [Lb [_ [_ [La Lp]]]]]]]].
    clearbody ind. unfold Ui.indicators_chartData.
    destruct (Indicators.bollingerBands ind) as [[u m] lo]. destruct Lb as [Lu [Lmi Llo]].
    destruct (Indicators.macd ind) as [[ml sg] hs]. destruct Lm as [Lml [Lsg Lhs]].
    split; [apply mapi_from_length|].
    intros i row E. rewrite mapi_from_nth_error in E.
    destruct (nth_error data i) as [item|] eqn:Ei; [|discriminate].
    cbn [option_map] in E. injection E as <-.
    assert (Hi : (i < length data)%nat) by (apply nth_error_Some; congruence).
    cbn [Ui.ir_sma Ui.ir_ema Ui.ir_upper Ui.ir_middle Ui.ir_lower Ui.ir_macdLine Ui.ir_macdSignal
         Ui.ir_macdHistogram Ui.ir_rsi Ui.ir_adx Ui.ir_psar Nat.add].
    repeat (apply Forall_cons; [apply cell_defined; lia|]). apply Forall_nil.
Qed.

(* ------------------------------------------------------------------ *)
(** ** Further properties: the indicator engine *)

(** X3: In [calculateEMA] of the indicator engine, for a period [P >= 1] the
    output is as long as the input, its first [P - 1] entries are [NaN], entry
    [P - 1] is the mean of the first [P] values, and every later entry [i] is
    [data[i] * k + out[i - 1] * (1 - k)] with [k = 2 / (P + 1)]. *)
Theorem ema_seeded_recurrence (data : list num) (P : nat) : (1 <= P)%nat ->
  let out := Indicators.calculateEMA data P in
  let k := num_div (Fin 2) (num_add (nat_num P) (Fin 1)) in
  length out = length data /\
  (forall i, (i < length data)%nat -> (i < P - 1)%nat -> nth i out NaN = NaN) /\
  ((P <= length data)%nat ->
   nth (P - 1) out NaN = num_div (Indicators.js_sum (firstn P data)) (nat_num P)) /\
  (forall i, (P <= i < length data)%nat ->
   nth i out NaN = num_add (num_mul (nth i data NaN) k)
                           (num_mul (nth (i - 1) out NaN) (num_sub (Fin 1) k))).
Proof. exact (ema_spec data P). Qed.

(** X5: [calculateMACD] on finite prices, with periods at least 1 and
    [M = max fastPeriod slowPeriod], returns three arrays as long as the input.
    The MACD line is [NaN] exactly before index [M - 1]. The signal line and
    the histogram are [NaN] exactly before index [M + signalPeriod - 2]. From
    [M - 1] on, the signal line is the EMA of the line with its [NaN] prefix
    dropped. Where the signal line is defined, the histogram is line minus
    signal. *)
Theorem macd_alignment (data : list Q) (fastPeriod slowPeriod signalPeriod : nat) :
  (1 <= fastPeriod)%nat -> (1 <= slowPeriod)%nat -> (1 <= signalPeriod)%nat ->
  let M := Nat.max fastPeriod slowPeriod in
  let '(line, sig, hist) :=
    Indicators.calculateMACD (map Fin data) fastPeriod slowPeriod signalPeriod in
  length line = length data /\ length sig = length data /\ length hist = length data /\
  forall i, (i < length data)%nat ->
    is_nan (nth i line NaN) = (i <? M - 1)%nat /\
    is_nan (nth i sig NaN) = (i <? M + signalPeriod - 2)%nat /\
    is_nan (nth i hist NaN) = (i <? M + signalPeriod - 2)%nat /\
    ((M - 1 <= i)%nat ->
     nth i sig NaN
     = nth (i - (M - 1)) (Indicators.calculateEMA (skipn (M - 1) line) signalPeriod) NaN) /\
    ((M + signalPeriod - 2 <= i)%nat ->
     nth i hist NaN = num_sub (nth i line NaN) (nth i sig NaN)).
Proof. exact (macd_shape data fastPeriod slowPeriod signalPeriod). Qed.

(** X6: [calculateRSI] of the indicator engine on finite prices, with a period
    [P >= 1], returns [max (length data) (P + 1)] entries. The first [P] are
    [NaN] and every later one is a finite value between 0 and 100. *)
Theorem rsi_shape_and_range (data : list Q) (P : nat) : (1 <= P)%nat ->
  let out := Indicators.calculateRSI (map Fin data) P in
  length out = Nat.max (length data) (P + 1) /\
  (forall i, (i < P)%nat -> nth i out NaN = NaN) /\
  (forall i, (P <= i < length out)%nat ->
     exists q, nth i out NaN = Fin q /\ 0 <= q <= 100).
Proof. exact (rsi_shape data P). Qed.

(** X9: [calculateADX] with a period [P >= 1] returns
    [max (length closes) (2 * P)] entries, whatever the inputs, and its first
    [2 * P - 1] entries are [NaN]. *)
Theorem adx_length (highs lows closes : list num) (P : nat) : (1 <= P)%nat ->
  let out := Indicators.calculateADX highs lows closes P in
  length out = Nat.max (length closes) (2 * P) /\
  forall i, (i < 2 * P - 1)%nat -> nth i out NaN = NaN.
Proof. exact (adx_shape highs lows closes P). Qed.

(** X10: [calculateParabolicSAR] returns [max 1 (length closes)] entries,
    and its first entry is always [NaN]. *)
Theorem psar_length (highs lows closes : list num) (initialAF maxAF : Q) :
  let out := Indicators.calculateParabolicSAR highs lows closes initialAF maxAF in
  length out = Nat.max 1 (length closes) /\ nth 0 out NaN = NaN.
Proof. exact (psar_shape highs lows closes initialAF maxAF). Qed.

(** X12: [calculateAllIndicators] on [n] bars returns SMA, EMA, the three MACD
    arrays, the three Bollinger arrays, volumes and dates of length [n], RSI of
    length [max n 15], ADX of length [max n 28] and a SAR of length [max 1 n]. *)
Theorem all_indicators_lengths (math_sqrt : num -> num)
  (stockData : list Forecast.StockTimeSeriesData) :
  let ind := Indicators.calculateAllIndicators math_sqrt stockData in
  let n := length stockData in
  length (Indicators.sma ind) = n /\
  length (Indicators.ema ind) = n /\
  (let '(line, signal, histogram) := Indicators.macd ind in
   length line = n /\ length signal = n /\ length histogram = n) /\
  length (Indicators.rsi ind) = Nat.max n 15 /\
  (let '(upper, middle, lower) := Indicators.bollingerBands ind in
   length upper = n /\ length middle = n /\ length lower = n) /\
  length (Indicators.volumes ind) = n /\
  length (Indicators.dates ind) = n /\
  length (Indicators.adx ind) = Nat.max n 28 /\
  length (Indicators.parabolicSAR ind) = Nat.max 1 n.
Proof. exact (all_indicators_shape math_sqrt stockData). Qed.

(* ------------------------------------------------------------------ *)
(** ** Further properties: the forecast engine *)

(** X17: [linearRegression] over the positions [1, ..., n], with [n >= 2] and
    values on the line [a * x + b], predicts exactly [a * p + b] at any
    point [p]. *)
Theorem linreg_exact_on_affine (a b : Q) (n : nat) (ys : list num) (p : Q) :
  (forall j, (j < n)%nat ->
     approx (js_get ys (Z.of_nat j)) (a * inject_Z (Z.of_nat (j + 1)) + b)) ->
  (2 <= n)%nat ->
  approx (Forecast.linearRegression (Forecast.positions n) ys (Fin p)) (a * p + b).
Proof. intros H Hn. exact (linreg_affine a b n ys H p Hn). Qed.

(** X18: On at least six prices on a line [c0 + d * k], a one-day
    [arimaInspiredPrediction] returns the next point of the line,
    [c0 + d * length], and the input array with that value pushed onto it. *)
Theorem arima_exact_on_linear (c0 d : Q) (qs : list Q) :
  (forall k, (k < length qs)%nat -> nth k qs 0 == c0 + d * inject_Z (Z.of_nat k)) ->
  (6 <= length qs)%nat ->
  exists v, Forecast.arimaInspiredPrediction (map Fin qs) 1 = ([v], map Fin qs ++ [v]) /\
            approx v (c0 + d * inject_Z (Z.of_nat (length qs))).
Proof. intros H Hn. exact (arima_one_linear c0 d qs H Hn). Qed.

(* ------------------------------------------------------------------ *)
(** ** Witnesses of the further properties *)

Section StringWitnesses.
Import String.StringSyntax.
Local Open Scope string_scope.

Lemma rate_limit_only_objects_witness :
  Api.checkForRateLimitError (Api.JObj [("Note", Api.JStr "Invalid API key")]) = true /\
  exists ms, Api.JObj [("Note", Api.JStr "Invalid API key")] = Api.JObj ms.
Proof.
  split; [vm_compute; reflexivity|]. apply rate_limit_only_objects. vm_compute. reflexivity.
Defined.

Lemma rate_limit_note_shadows_witness :
  Api.truthy (Api.get_prop (Api.JObj [("Note", Api.JStr "Thank you")]) "Note") = true /\
  Api.checkForRateLimitError
    (Api.JObj ([("Note", Api.JStr "Thank you")] ++ [("Information", Api.JStr "rate limit")])%list)
  = Api.checkForRateLimitError (Api.JObj [("Note", Api.JStr "Thank you")]).
Proof.
  split; [vm_compute; reflexivity|]. apply rate_limit_note_shadows. vm_compute. reflexivity.
Defined.

(** The state of the prediction tabs before anything is loaded. *)
Lemma tabs_catch_unreachable_witness :
  (30 <= length rising30)%nat /\
  exists r, Forecast.predictStockPrices V8Sort.v8_sort_small rising30 = inr r /\
    Ui.on_data_change V8Sort.v8_sort_small rising30
      {| Ui.technicalPrediction := None; Ui.technicalIndicators := None; Ui.error := "" |} =
    {| Ui.technicalPrediction := Some r; Ui.technicalIndicators := None; Ui.error := "" |}.
Proof.
  split; [vm_compute; lia|].
  apply (proj2 (proj2 (tabs_catch_unreachable V8Sort.v8_sort_small rising30
    {| Ui.technicalPrediction := None; Ui.technicalIndicators := None; Ui.error := "" |}))).
  vm_compute. lia.
Defined.

Lemma indicators_tab_rows_defined_witness :
  Ui.technicalIndicators
    {| Ui.technicalPrediction := None; Ui.technicalIndicators := None; Ui.error := "" |} = None /\
  (30 <= length rising30)%nat /\
  exists ind,
    Ui.technicalIndicators
      (Ui.loadTechnicalIndicators (fun x => match x with Fin q => Fin (inject_Z (Z.sqrt (Qfloor q))) | _ => x end)
         rising30 {| Ui.technicalPrediction := None; Ui.technicalIndicators := None; Ui.error := "" |})
    = Some ind /\
    length (Ui.indicators_chartData rising30 ind) = length rising30.
Proof.
  split; [reflexivity|]. split; [vm_compute; lia|].
  destruct (proj2 (indicators_tab_rows_defined
    (fun x => match x with Fin q => Fin (inject_Z (Z.sqrt (Qfloor q))) | _ => x end) rising30
    {| Ui.technicalPrediction := None; Ui.technicalIndicators := None; Ui.error := "" |}
    eq_refl) ltac:(vm_compute; lia)) as [ind [H1 [H2 _]]].
  exists ind. split; [exact H1 | exact H2].
Defined.

Lemma chart_rows_show_closes_witness :
  (30 <= length rising30)%nat /\
  match Forecast.predictStockPrices V8Sort.v8_sort_small rising30 with
  | inr r =>
      length (Ui.chartData r "2024-01-31" "2024-02-06") = (length rising30 + 2)%nat /\
      Ui.confidencePercentage r = NaN
  | inl _ => False
  end.
Proof.
  split; [vm_compute; lia|].
  pose proof (chart_rows_show_closes V8Sort.v8_sort_small rising30 "2024-01-31" "2024-02-06"
    ltac:(vm_compute; lia)) as T.
  destruct (Forecast.predictStockPrices V8Sort.v8_sort_small rising30) as [e | r];
    [exact T|].
  cbv zeta in T. destruct T as [L [_ [_ [_ C]]]]. split; [exact L | exact C].
Defined.

End StringWitnesses.

Lemma ema_seeded_recurrence_witness :
  (1 <= 3)%nat /\
  let out := Indicators.calculateEMA (map Fin [1; 2; 3; 4; 5]%Q) 3 in
  let k := num_div (Fin 2) (num_add (nat_num 3) (Fin 1)) in
  length out = length (map Fin [1; 2; 3; 4; 5]%Q) /\
  (forall i, (i < length (map Fin [1; 2; 3; 4; 5]%Q))%nat -> (i < 3 - 1)%nat -> nth i out NaN = NaN) /\
  ((3 <= length (map Fin [1; 2; 3; 4; 5]%Q))%nat ->
   nth (3 - 1) out NaN = num_div (Indicators.js_sum (firstn 3 (map Fin [1; 2; 3; 4; 5]%Q))) (nat_num 3)) /\
  (forall i, (3 <= i < length (map Fin [1; 2; 3; 4; 5]%Q))%nat ->
   nth i out NaN = num_add (num_mul (nth i (map Fin [1; 2; 3; 4; 5]%Q) NaN) k)
                           (num_mul (nth (i - 1) out NaN) (num_sub (Fin 1) k))).
Proof. split; [lia|]. apply (ema_seeded_recurrence (map Fin [1; 2; 3; 4; 5]%Q) 3). lia. Defined.

Lemma ema_constant_series_witness :
  (1 <= 3)%nat /\
  forall i, (3 - 1 <= i < 5)%nat ->
    approx (nth i (Indicators.calculateEMA (repeat (Fin 7) 5) 3) NaN) 7.
Proof. split; [lia|]. apply (ema_constant_series 7 5 3). lia. Defined.

Lemma macd_alignment_witness :
  (1 <= 2)%nat /\ (1 <= 3)%nat /\ (1 <= 2)%nat /\
  let M := Nat.max 2 3 in
  let '(line, sig, hist) := Indicators.calculateMACD (map Fin [1; 3; 2; 5; 4; 6; 8; 7]%Q) 2 3 2 in
  length line = 8%nat /\ length sig = 8%nat /\ length hist = 8%nat.
Proof.
  split; [lia|]. split; [lia|]. split; [lia|].
  pose proof (macd_alignment [1; 3; 2; 5; 4; 6; 8; 7]%Q 2 3 2 ltac:(lia) ltac:(lia) ltac:(lia)) as T.
  cbv zeta in T |- *.
  destruct (Indicators.calculateMACD (map Fin [1; 3; 2; 5; 4; 6; 8; 7]%Q) 2 3 2) as [[line sig] hist].
  destruct T as [L1 [L2 [L3 _]]]. split; [exact L1|]. split; [exact L2 | exact L3].
Defined.

Lemma rsi_shape_and_range_witness :
  (1 <= 2)%nat /\
  forall i, (2 <= i < length (Indicators.calculateRSI (map Fin [1; 2; 1; 4; 5]%Q) 2))%nat ->
    exists q, nth i (Indicators.calculateRSI (map Fin [1; 2; 1; 4; 5]%Q) 2) NaN = Fin q /\ 0 <= q <= 100.
Proof.
  split; [lia|]. apply (proj2 (proj2 (rsi_shape_and_range [1; 2; 1; 4; 5]%Q 2 ltac:(lia)))).
Defined.

Lemma rsi_flat_series_witness :
  (1 <= 2)%nat /\
  let out := Indicators.calculateRSI (repeat (Fin 5) 6) 2 in
  forall i, (2 <= i < length out)%nat -> approx (nth i out NaN) 0.
Proof. split; [lia|]. apply (rsi_flat_series 5 6 2). lia. Defined.

Lemma bollinger_symmetric_witness :
  (1 <= 3)%nat /\ 0 <= 2 /\
  (forall q, 0 <= q -> exists r,
     (fun x => match x with Fin q => Fin (inject_Z (Z.sqrt (Qfloor q))) | _ => x end) (Fin q) = Fin r
     /\ 0 <= r) /\
  let '(upper, middle, lower) :=
    Indicators.calculateBollingerBands
      (fun x => match x with Fin q => Fin (inject_Z (Z.sqrt (Qfloor q))) | _ => x end)
      (map Fin [4; 8; 6; 10]%Q) 3 (Fin 2) in
  length upper = 4%nat /\ length middle = 4%nat /\ length lower = 4%nat.
Proof.
  assert (Hs : forall q, 0 <= q -> exists r,
     (fun x => match x with Fin q => Fin (inject_Z (Z.sqrt (Qfloor q))) | _ => x end) (Fin q) = Fin r
     /\ 0 <= r).
  { intros q _. exists (inject_Z (Z.sqrt (Qfloor q))). split; [reflexivity|].
    pose proof (Z.sqrt_nonneg (Qfloor q)). unfold Qle; cbn. lia. }
  split; [lia|]. split; [lra|]. split; [exact Hs|].
  pose proof (bollinger_symmetric
    (fun x => match x with Fin q => Fin (inject_Z (Z.sqrt (Qfloor q))) | _ => x end)
    [4; 8; 6; 10]%Q 3 2 ltac:(lia) ltac:(lra) Hs) as T.
  destruct (Indicators.calculateBollingerBands _ (map Fin [4; 8; 6; 10]%Q) 3 (Fin 2))
    as [[upper middle] lower].
  destruct T as [L1 [L2 [L3 _]]]. split; [exact L1|]. split; [exact L2 | exact L3].
Defined.

Lemma adx_length_witness :
  (1 <= 14)%nat /\
  length (Indicators.calculateADX flat30 flat30 flat30 14) = Nat.max (length flat30) (2 * 14).
Proof. split; [lia|]. apply (proj1 (adx_length flat30 flat30 flat30 14 ltac:(lia))). Defined.

Lemma psar_rising_lows_never_reverse_witness :
  (forall i, (S i < length [1; 2; 3]%Q)%nat -> nth i [1; 2; 3]%Q 0 <= nth (S i) [1; 2; 3]%Q 0) /\
  Indicators.isUptrend
    (Indicators.psar_init [Fin 2; Fin 3; Fin 4] (map Fin [1; 2; 3]%Q) [Fin 2; Fin 3; Fin 4] 0.02) = true /\
  forall st, In st (Indicators.psar_states [Fin 2; Fin 3; Fin 4] (map Fin [1; 2; 3]%Q)
                      [Fin 2; Fin 3; Fin 4] 0.02 0.2) ->
  Indicators.isUptrend st = true.
Proof.
  assert (Hr : forall i, (S i < length [1; 2; 3]%Q)%nat -> nth i [1; 2; 3]%Q 0 <= nth (S i) [1; 2; 3]%Q 0).
  { intros i Hi. cbn [length] in Hi.
    destruct i as [|[|i]]; [cbn; lra | cbn; lra | lia]. }
  split; [exact Hr|]. split; [vm_compute; reflexivity|].
  apply (psar_rising_lows_never_reverse _ _ _ _ _ Hr). vm_compute. reflexivity.
Defined.

Lemma fc_sma_windows_witness :
  (1 <= 2)%nat /\
  length (Forecast.calculateSMA (map Fin [1; 2; 3; 4]%Q) 2) = 3%nat.
Proof. split; [lia|]. apply (proj1 (fc_sma_windows [1; 2; 3; 4]%Q 2 ltac:(lia))). Defined.

Lemma fc_ema_shape_witness :
  (1 <= 1 < length [Fin 1; Fin 2; Fin 3])%nat /\
  exists v, nth 1 (Forecast.calculateEMA [Fin 1; Fin 2; Fin 3] 2) None = Some v.
Proof.
  split; [cbn; lia|]. apply (proj2 (proj2 (fc_ema_shape [Fin 1; Fin 2; Fin 3] 2))). cbn; lia.
Defined.

Lemma fc_ema_constant_witness :
  (1 <= 3)%nat /\
  forall i, (i < 3)%nat ->
    exists v, nth i (Forecast.calculateEMA (repeat (Fin 7) 3) 5) None = Some v /\ approx v 7.
Proof. split; [lia|]. apply (fc_ema_constant 7 3 5). lia. Defined.

Lemma fc_rsi_padded_witness :
  (1 <= 2)%nat /\
  forall i, (2 <= i < length [1; 2; 1; 4; 5]%Q)%nat ->
    exists q, nth i (Forecast.calculateRSI (map Fin [1; 2; 1; 4; 5]%Q) 2) None = Some (Fin q) /\
              0 <= q <= 100.
Proof.
  split; [lia|]. apply (proj2 (proj2 (fc_rsi_padded [1; 2; 1; 4; 5]%Q 2 ltac:(lia)))).
Defined.

Lemma linreg_exact_on_affine_witness :
  (forall j, (j < 3)%nat ->
     approx (js_get [Fin 3; Fin 5; Fin 7] (Z.of_nat j)) (2 * inject_Z (Z.of_nat (j + 1)) + 1)) /\
  (2 <= 3)%nat /\
  approx (Forecast.linearRegression (Forecast.positions 3) [Fin 3; Fin 5; Fin 7] (Fin 4)) (2 * 4 + 1).
Proof.
  assert (H : forall j, (j < 3)%nat ->
     approx (js_get [Fin 3; Fin 5; Fin 7] (Z.of_nat j)) (2 * inject_Z (Z.of_nat (j + 1)) + 1)).
  { intros j Hj. destruct j as [|[|[|j]]]; [| | | lia];
      (eexists; split; [reflexivity | vm_compute; reflexivity]). }
  split; [exact H|]. split; [lia|]. apply (linreg_exact_on_affine 2 1 3 _ 4 H). lia.
Defined.

Lemma arima_exact_on_linear_witness :
  (forall k, (k < length [1; 2; 3; 4; 5; 6]%Q)%nat ->
     nth k [1; 2; 3; 4; 5; 6]%Q 0 == 1 + 1 * inject_Z (Z.of_nat k)) /\
  (6 <= length [1; 2; 3; 4; 5; 6]%Q)%nat /\
  exists v, Forecast.arimaInspiredPrediction (map Fin [1; 2; 3; 4; 5; 6]%Q) 1
            = ([v], map Fin [1; 2; 3; 4; 5; 6]%Q ++ [v]) /\
            approx v (1 + 1 * inject_Z (Z.of_nat (length [1; 2; 3; 4; 5; 6]%Q))).
Proof.
  assert (H : forall k, (k < length [1; 2; 3; 4; 5; 6]%Q)%nat ->
     nth k [1; 2; 3; 4; 5; 6]%Q 0 == 1 + 1 * inject_Z (Z.of_nat k)).
  { intros k Hk. cbn [length] in Hk.
    do 6 (destruct k as [|k]; [vm_compute; reflexivity|]). lia. }
  split; [exact H|]. split; [cbn; lia|]. apply (arima_exact_on_linear 1 1 _ H). cbn; lia.
Defined.

Lemma support_le_resistance_witness :
  (1 <= length [3; 1; 2]%Q)%nat /\
  exists s r,
    Forecast.findSupportResistance V8Sort.v8_sort_small (map Fin [3; 1; 2]%Q) = (Fin s, Fin r) /\
    s <= r /\ In s [3; 1; 2]%Q /\ In r [3; 1; 2]%Q.
Proof. split; [cbn; lia|]. apply support_le_resistance. cbn; lia. Defined.

Lemma determineTrend_window_witness :
  (1 <= length [100; 101; 105]%Q)%nat /\ 0 < nth (3 - Nat.min 3 10) [100; 101; 105]%Q 0 /\
  Forecast.determineTrend (map Fin [100; 101; 105]%Q) = Forecast.Bullish.
Proof.
  split; [cbn; lia|]. split; [vm_compute; reflexivity|].
  pose proof (determineTrend_window [100; 101; 105]%Q) as T. cbv zeta in T.
  rewrite T by (vm_compute; first [lia | reflexivity]). vm_compute. reflexivity.
Defined.


Lemma predict_linear_series_witness :
  (30 <= length rising30)%nat /\
  (forall k, (k < length rising30)%nat ->
     Forecast.close (nth k rising30 (bar_at 0)) == 1 + 1 * inject_Z (Z.of_nat k)) /\
  exists r, Forecast.predictStockPrices V8Sort.v8_sort_small rising30 = inr r /\
    approx (Forecast.nextDayPrediction r) (1 + 1 * inject_Z (Z.of_nat (length rising30))).
Proof.
  assert (H : forall k, (k < length rising30)%nat ->
     Forecast.close (nth k rising30 (bar_at 0)) == 1 + 1 * inject_Z (Z.of_nat k)).
  { intros k Hk. unfold rising30 in Hk. rewrite length_map, length_seq in Hk.
    do 30 (destruct k as [|k]; [vm_compute; reflexivity|]). lia. }
  split; [vm_compute; lia|]. split; [exact H|].
  destruct (predict_linear_series V8Sort.v8_sort_small rising30 1 1 ltac:(vm_compute; lia) H)
    as [r [E [A _]]].
  exists r. split; [exact E | exact A].
Defined.
